(** * The memory decision pipeline of the Decider service

    A shallow embedding of [scorer.py], [deduper.py], [storage.py],
    [decider_service.py] and the two review endpoints of [main.py].

    Conventions of the embedding:
    - Python [float]s are read as the rationals they denote ([Q]); results
      of divisions and of [round] are kept in lowest terms, so that equal
      numbers are equal terms.  Comparisons of finite floats agree with the
      comparisons of those rationals.
    - [str] is [string]; texts are taken to be ASCII.
    - The MongoDB collections live in a [World] record, together with the
      script of outcomes ([faults]) the database will give to the next
      calls: this is how an unreachable or refusing store is modelled.
    - Timestamps ([datetime.now]) are left out of the records: no function
      of the pipeline reads them.
    - The extractor ([extractor.py]) is not embedded: [extract_and_store]
      starts from the candidates it returned. *)

From Stdlib Require Import ZArith QArith Qround Qabs Lqa String Ascii List Bool Sorted.
From stdpp Require Import base decidable option list gmap strings pretty.

#[local] Set Warnings "-clear-no-such-hyp".

Local Open Scope Z_scope.
Local Open Scope Q_scope.
Local Open Scope string_scope.
Local Open Scope list_scope.

(** ** Python primitives used by the sources *)

Module Py.

(** [x >= y] and [x > y] on floats. *)
Definition ge (x y : Q) : bool := Qle_bool y x.
Definition gt (x y : Q) : bool := negb (Qle_bool x y).

(** The integer nearest to [x]; of two equally near, the even one. *)
Definition round_half_even (x : Q) : Z :=
  let num := Qnum x in
  let den := Zpos (Qden x) in
  let q := (num / den)%Z in
  let r := (num mod den)%Z in
  if (2 * r <? den)%Z then q
  else if (den <? 2 * r)%Z then (q + 1)%Z
  else if Z.even q then q else (q + 1)%Z.

(** [round(x, 3)]. *)
Definition round3 (x : Q) : Q := Qred (round_half_even (x * 1000) # 1000).

(** [a / b] for two non-negative [int]s, [b > 0]. *)
Definition true_div (a b : nat) : Q := Qred (Z.of_nat a # Pos.of_nat b).

(** [str.lower] on ASCII. *)
Definition lower_ascii (c : ascii) : ascii :=
  let n := nat_of_ascii c in
  if (65 <=? n)%nat && (n <=? 90)%nat then ascii_of_nat (n + 32) else c.

Fixpoint lower (s : string) : string :=
  match s with
  | EmptyString => EmptyString
  | String c s' => String (lower_ascii c) (lower s')
  end.

(** The ASCII characters for which [str.isspace] holds. *)
Definition isspace (c : ascii) : bool :=
  let n := nat_of_ascii c in
  ((9 <=? n)%nat && (n <=? 13)%nat) || ((28 <=? n)%nat && (n <=? 32)%nat).

(** [str.split()] without argument: maximal runs of non-space characters.
    [cur] is the word being read, reversed. *)
Fixpoint split_go (cur : string) (s : string) : list string :=
  match s with
  | EmptyString =>
      match cur with EmptyString => [] | _ => [String.rev cur] end
  | String c s' =>
      if isspace c then
        match cur with
        | EmptyString => split_go EmptyString s'
        | _ => String.rev cur :: split_go EmptyString s'
        end
      else split_go (String c cur) s'
  end.

Definition split (s : string) : list string := split_go EmptyString s.

(** [s[:n]]. *)
Fixpoint prefix (n : nat) (s : string) : string :=
  match n, s with
  | S n', String c s' => String c (prefix n' s')
  | _, _ => EmptyString
  end.

(** [n] as decimal digits, left-padded with zeros to [width]. *)
Definition zero_pad (width : nat) (n : N) : string :=
  let d := pretty n in
  String.concat "" (replicate (width - String.length d) "0") ++ d.

(** [f"{x:.3f}"]. *)
Definition format_3f (x : Q) : string :=
  let n := round_half_even (x * 1000) in
  let a := Z.to_N (Z.abs n) in
  (if Qle_bool 0 x then "" else "-")
    ++ pretty (a / 1000)%N ++ "." ++ zero_pad 3 (a mod 1000)%N.

(** [k] decimals of [x >= 0], truncated: the first [k] with no remainder
    is the shortest decimal that denotes [x]. *)
Fixpoint repr_go (fuel k : nat) (x : Q) : string :=
  let scaled := x * inject_Z (10 ^ Z.of_nat k) in
  let exact := Qeq_bool (inject_Z (Qfloor scaled)) scaled in
  match fuel with
  | S fuel' =>
      if exact then
        let a := Z.to_N (Qfloor scaled) in
        let p := (10 ^ N.of_nat k)%N in
        pretty (a / p)%N ++ "." ++ zero_pad k (a mod p)%N
      else repr_go fuel' (S k) x
  | O =>
      let a := Z.to_N (round_half_even scaled) in
      let p := (10 ^ N.of_nat k)%N in
      pretty (a / p)%N ++ "." ++ zero_pad k (a mod p)%N
  end.

(** [str(x)], as an f-string writes [{x}], for a float from 0.0001 up to
    1e16 given by a decimal literal of at most 16 decimals (the thresholds
    of [config.py] are such literals; outside this range Python writes an
    exponent). *)
Definition float_str (x : Q) : string :=
  (if Qle_bool 0 x then "" else "-") ++ repr_go 16 1 (Qabs x).

End Py.

(** ** models.py *)

Module Models.

Inductive MemoryType := PREFERENCE | GOAL | COMMITMENT | SKILL | FEEDBACK.

(** [MemoryType.value] *)
Definition value (t : MemoryType) : string :=
  match t with
  | PREFERENCE => "preference"
  | GOAL => "goal"
  | COMMITMENT => "commitment"
  | SKILL => "skill"
  | FEEDBACK => "feedback"
  end.

Record ConversationTurn := {
  speaker : string;
  text : string
}.

Record CandidateMemory := {
  id : option string;
  memory_type : MemoryType;
  content : string;
  confidence : Q;
  relevance : Q;
  specificity : Q;
  salience_score : Q;
  source_turn : ConversationTurn;
  extraction_evidence : string
}.

(** [candidate.salience_score = score] *)
Definition set_salience_score (c : CandidateMemory) (score : Q) : CandidateMemory :=
  {| id := id c; memory_type := memory_type c; content := content c;
     confidence := confidence c; relevance := relevance c;
     specificity := specificity c; salience_score := score;
     source_turn := source_turn c;
     extraction_evidence := extraction_evidence c |}.

(** The [Field(ge=0.0, le=1.0)] constraints, checked when a
    [CandidateMemory] is built from the fields of a document. *)
Definition in_unit (x : Q) : bool := Py.ge x 0 && Py.ge 1 x.

Definition validate (c : CandidateMemory) : bool :=
  in_unit (confidence c) && in_unit (relevance c)
  && in_unit (specificity c) && in_unit (salience_score c).

(** The four values the sources give to [MemoryDecision.action]. *)
Inductive Action := keep | merge | buffer | reject.

Record MemoryDecision := {
  action : Action;
  reason : string;
  merged_with : option string;
  admin_notes : option string
}.

(** A decision built with [action] and [reason] only. *)
Definition new_decision (a : Action) (r : string) : MemoryDecision :=
  {| action := a; reason := r; merged_with := None; admin_notes := None |}.

(** The random vector of [_generate_embedding] is a function of its text
    alone; it is kept as the text that seeds it. *)
Inductive Embedding := Seeded (seed_text : string).

Record StoredMemory := {
  sm_id : option string;
  sm_candidate : CandidateMemory;
  sm_decision : MemoryDecision;
  final_content : string;
  embedding : option Embedding
}.

Record BufferedMemory := {
  bm_id : option string;
  bm_candidate : CandidateMemory;
  buffer_reason : string;
  buffer_score : Q
}.

Record AdminReviewRequest := {
  rq_memory_id : string;
  rq_action : string;
  notes : option string;
  modified_content : option string
}.

Record ExtractionResponse := {
  candidates : list CandidateMemory;
  decisions : list MemoryDecision;
  stored_count : nat;
  buffered_count : nat;
  rejected_count : nat
}.

End Models.

Import Models.

(** ** config.py *)

Module Config.

Record Weights := {
  w_relevance : Q;
  w_specificity : Q;
  w_confidence : Q
}.

Record t := {
  SCORING_WEIGHTS : Weights;
  THRESHOLDS : gmap string Q;
  SIMILARITY_THRESHOLD : Q;
  BUFFER_THRESHOLD : Q
}.

(** The values taken when the environment sets none. *)
Definition default : t :=
  {| SCORING_WEIGHTS :=
       {| w_relevance := 0.4; w_specificity := 0.3; w_confidence := 0.3 |};
     THRESHOLDS :=
       <["preference" := 0.5]> (<["goal" := 0.6]> (<["commitment" := 0.7]>
       (<["skill" := 0.6]> (<["feedback" := 0.5]> ∅))));
     SIMILARITY_THRESHOLD := 0.85;
     BUFFER_THRESHOLD := 0.5 |}.

End Config.

(** ** scorer.py *)

Module MemoryScorer.

Section Scorer.
Variable cfg : Config.t.

Definition weights := Config.SCORING_WEIGHTS cfg.
Definition buffer_threshold := Config.BUFFER_THRESHOLD cfg.

(** [self.thresholds.get(memory_type, 0.7)] *)
Definition threshold_of (memory_type : string) : Q :=
  default 0.7 (Config.THRESHOLDS cfg !! memory_type).

Definition _calculate_salience_score (candidate : CandidateMemory) : Q :=
  let score :=
    Config.w_relevance weights * relevance candidate
    + Config.w_specificity weights * specificity candidate
    + Config.w_confidence weights * confidence candidate in
  Py.round3 score.

(** [scored.sort(key=lambda x: x[1], reverse=True)]: the sort is stable.
    [insert_desc x l] places [x], which came before the elements of [l] in
    the batch, after the ones with a greater score and no further. *)
Fixpoint insert_desc (x : CandidateMemory * Q) (l : list (CandidateMemory * Q))
  : list (CandidateMemory * Q) :=
  match l with
  | [] => [x]
  | y :: l' => if Py.gt y.2 x.2 then y :: insert_desc x l' else x :: y :: l'
  end.

Fixpoint sort_desc (l : list (CandidateMemory * Q)) : list (CandidateMemory * Q) :=
  match l with
  | [] => []
  | x :: l' => insert_desc x (sort_desc l')
  end.

Definition score_memories (candidates : list CandidateMemory)
  : list (CandidateMemory * Q) :=
  let scored :=
    map (fun candidate =>
           let score := _calculate_salience_score candidate in
           (set_salience_score candidate score, score)) candidates in
  sort_desc scored.

Definition _evaluate_candidate (candidate : CandidateMemory) (score : Q)
  : MemoryDecision :=
  let memory_type := value (memory_type candidate) in
  let threshold := threshold_of memory_type in
  if Py.ge score threshold then
    new_decision keep
      ("Score " ++ Py.format_3f score ++ " meets " ++ memory_type
       ++ " threshold " ++ Py.float_str threshold)
  else if Py.ge score buffer_threshold then
    new_decision buffer
      ("Score " ++ Py.format_3f score ++ " below " ++ memory_type
       ++ " threshold " ++ Py.float_str threshold
       ++ " but above buffer threshold " ++ Py.float_str buffer_threshold)
  else
    new_decision reject
      ("Score " ++ Py.format_3f score ++ " below buffer threshold "
       ++ Py.float_str buffer_threshold).

Definition make_decisions (scored_candidates : list (CandidateMemory * Q))
  : list MemoryDecision :=
  map (fun '(candidate, score) => _evaluate_candidate candidate score)
      scored_candidates.

End Scorer.

End MemoryScorer.

(** ** deduper.py *)

Module MemoryDeduper.

(** [set(text.lower().split())] *)
Definition words (text : string) : gset string :=
  list_to_set (Py.split (Py.lower text)).

Definition _calculate_text_similarity (text1 text2 : string) : Q :=
  let words1 := words text1 in
  let words2 := words text2 in
  if bool_decide (words1 = ∅) || bool_decide (words2 = ∅) then 0
  else
    let intersection := size (words1 ∩ words2) in
    let union := size (words1 ∪ words2) in
    if (0 <? union)%nat then Py.true_div intersection union else 0.

(** What one merge of the within-batch pass does: the decision appended,
    and the two indices of its log line
    ("Merging candidate [merge_idx] into candidate [keep_idx]"). *)
Record MergeEvent := {
  merge_idx : nat;
  keep_idx : nat;
  ev_similarity : Q;
  ev_decision : MemoryDecision
}.

Section Deduper.
Variable cfg : Config.t.

Definition similarity_threshold := Config.SIMILARITY_THRESHOLD cfg.

(** The inner loop of [_deduplicate_against_stored]: the stored memory
    most similar to the candidate, the first one among equals. *)
Definition best_stored_match (candidate : CandidateMemory)
    (stored_memories : list StoredMemory) : option StoredMemory * Q :=
  fold_left
    (fun '(best_match, best_similarity) stored =>
       match embedding stored with
       | None => (best_match, best_similarity)
       | Some _ =>
           let similarity :=
             _calculate_text_similarity (content candidate) (final_content stored) in
           if Py.gt similarity best_similarity then (Some stored, similarity)
           else (best_match, best_similarity)
       end)
    stored_memories (None, 0).

(** The result is [inl] when the loop raises: with a threshold of 0 or
    less and no match, [best_match] is [None] and has no [final_content]. *)
Fixpoint _deduplicate_against_stored (candidates : list CandidateMemory)
    (stored_memories : list StoredMemory)
  : string + (list MemoryDecision * list CandidateMemory) :=
  match candidates with
  | [] => inr ([], [])
  | candidate :: rest =>
      let '(best_match, best_similarity) :=
        best_stored_match candidate stored_memories in
      if Py.ge best_similarity similarity_threshold then
        match best_match with
        | None => inl "'NoneType' object has no attribute 'final_content'"
        | Some best =>
            let decision :=
              {| action := merge;
                 reason := "Similarity " ++ Py.format_3f best_similarity
                           ++ " with stored memory '"
                           ++ Py.prefix 50 (final_content best) ++ "...'";
                 merged_with := sm_id best;
                 admin_notes := None |} in
            match _deduplicate_against_stored rest stored_memories with
            | inl e => inl e
            | inr (decisions, remaining) => inr (decision :: decisions, remaining)
            end
        end
      else
        match _deduplicate_against_stored rest stored_memories with
        | inl e => inl e
        | inr (decisions, remaining) => inr (decisions, candidate :: remaining)
        end
  end.

(** The loop over [j, candidate2] of [_deduplicate_candidates], for a fixed
    [i, candidate1]; [rest] is [candidates[j:]]. *)
Fixpoint inner_loop (i : nat) (candidate1 : CandidateMemory) (j : nat)
    (rest : list CandidateMemory) (processed : gset nat)
  : list MergeEvent * gset nat :=
  match rest with
  | [] => ([], processed)
  | candidate2 :: rest' =>
      if bool_decide (j ∈ processed) then
        inner_loop i candidate1 (S j) rest' processed
      else
        let similarity :=
          _calculate_text_similarity (content candidate1) (content candidate2) in
        if Py.ge similarity similarity_threshold then
          let '(keep_candidate, merge_candidate, keep_i, merge_i) :=
            if Py.ge (salience_score candidate1) (salience_score candidate2)
            then (candidate1, candidate2, i, j)
            else (candidate2, candidate1, j, i) in
          let decision :=
            {| action := merge;
               reason := "Similarity " ++ Py.format_3f similarity
                         ++ " with candidate '"
                         ++ Py.prefix 50 (content merge_candidate) ++ "...'";
               merged_with := id keep_candidate;
               admin_notes := None |} in
          let event :=
            {| merge_idx := merge_i; keep_idx := keep_i;
               ev_similarity := similarity; ev_decision := decision |} in
          let '(events, processed') :=
            inner_loop i candidate1 (S j) rest' ({[merge_i]} ∪ processed) in
          (event :: events, processed')
        else inner_loop i candidate1 (S j) rest' processed
  end.

(** The loop over [i, candidate1]; [rest] is [candidates[i:]]. *)
Fixpoint outer_loop (i : nat) (rest : list CandidateMemory)
    (processed : gset nat) : list MergeEvent :=
  match rest with
  | [] => []
  | candidate1 :: rest' =>
      if bool_decide (i ∈ processed) then outer_loop (S i) rest' processed
      else
        let '(events, processed') :=
          inner_loop i candidate1 (S i) rest' processed in
        events ++ outer_loop (S i) rest' processed'
  end.

Definition merge_events (candidates : list CandidateMemory) : list MergeEvent :=
  outer_loop 0 candidates ∅.

Definition _deduplicate_candidates (candidates : list CandidateMemory)
  : list MemoryDecision :=
  map ev_decision (merge_events candidates).

Definition deduplicate_memories (candidates : list CandidateMemory)
    (stored_memories : list StoredMemory)
  : string + (list MemoryDecision * list CandidateMemory) :=
  match _deduplicate_against_stored candidates stored_memories with
  | inl e => inl e
  | inr (decisions, remaining_candidates) =>
      let decisions :=
        if (1 <? length remaining_candidates)%nat
        then decisions ++ _deduplicate_candidates remaining_candidates
        else decisions in
      inr (decisions, remaining_candidates)
  end.

End Deduper.

End MemoryDeduper.

(** ** storage.py *)

Module MemoryStorage.

(** *** bson.ObjectId: twelve bytes, written as 24 hexadecimal digits *)

Definition hex_digit (c : ascii) : option N :=
  let n := N_of_ascii c in
  if (48 <=? n)%N && (n <=? 57)%N then Some (n - 48)%N
  else if (97 <=? n)%N && (n <=? 102)%N then Some (n - 87)%N
  else if (65 <=? n)%N && (n <=? 70)%N then Some (n - 55)%N
  else None.

Fixpoint hex_value (acc : N) (s : string) : option N :=
  match s with
  | EmptyString => Some acc
  | String c s' =>
      match hex_digit c with
      | Some d => hex_value (16 * acc + d)%N s'
      | None => None
      end
  end.

(** [ObjectId(memory_id)]; [None] when it raises. *)
Definition ObjectId (memory_id : string) : option N :=
  if (String.length memory_id =? 24)%nat then hex_value 0 memory_id else None.

Definition hex_char (d : N) : ascii :=
  if (d <? 10)%N then ascii_of_N (48 + d) else ascii_of_N (87 + d).

Fixpoint hex_digits (k : nat) (n : N) (acc : string) : string :=
  match k with
  | O => acc
  | S k' => hex_digits k' (n / 16)%N (String (hex_char (n mod 16)%N) acc)
  end.

(** [str(object_id)] *)
Definition oid_str (oid : N) : string := hex_digits 24 oid EmptyString.

(** *** The database *)

Record AuditLog := {
  al_action : string;
  al_memory_id : string;
  al_memory_type : string;
  al_content : string;
  al_salience_score : Q;
  al_decision : option MemoryDecision;
  al_evidence : string
}.

(** The writes the database has accepted, oldest first. *)
Inductive DbWrite :=
| InsertStored (oid : N)
| InsertBuffered (oid : N)
| InsertAudit (entry_action : string)
| DeleteBuffered (oid : N).

(** - [stored_memories]: the collection, most recently stored first (the
      order of [sort("stored_at", -1)]), each document with its key.
    - [buffered_memories]: the collection, by key.
    - [next_oid]: the key the next insert will get.
    - [faults]: what the database answers to the coming calls, one entry a
      call: [None] lets the call through, [Some e] makes it raise [e].
      Once the script is used up every call goes through.
    - [journal]: the accepted writes, in order. *)
Record World := {
  stored_memories : list (N * StoredMemory);
  buffered_memories : gmap N BufferedMemory;
  audit_logs : list AuditLog;
  next_oid : N;
  faults : list (option string);
  journal : list DbWrite
}.

Definition set_faults (w : World) (f : list (option string)) : World :=
  {| stored_memories := stored_memories w;
     buffered_memories := buffered_memories w;
     audit_logs := audit_logs w; next_oid := next_oid w;
     faults := f; journal := journal w |}.

(** A computation on the database: it ends with a value or with an
    exception (its message), and what it wrote before raising stays. *)
Definition M (A : Type) : Type := World -> (string + A) * World.

Definition ret {A} (a : A) : M A := fun w => (inr a, w).
Definition raise {A} (e : string) : M A := fun w => (inl e, w).
Definition bind {A B} (m : M A) (k : A -> M B) : M B :=
  fun w => match m w with
           | (inr a, w') => k a w'
           | (inl e, w') => (inl e, w')
           end.
(** [try: m  except Exception as e: h e] *)
Definition try_except {A} (m : M A) (h : string -> M A) : M A :=
  fun w => match m w with
           | (inr a, w') => (inr a, w')
           | (inl e, w') => h e w'
           end.

#[global] Instance M_ret : MRet M := @ret.
#[global] Instance M_bind : MBind M := fun A B k m => bind m k.

(** Every call to the database first meets the next entry of [faults]. *)
Definition db_call : M unit :=
  fun w => match faults w with
           | [] => (inr tt, w)
           | None :: f => (inr tt, set_faults w f)
           | Some e :: f => (inl e, set_faults w f)
           end.

(** [self.stored_memories.insert_one(memory_dict)] *)
Definition insert_stored (doc : StoredMemory) : M N :=
  db_call ;;
  ((fun w =>
    let oid := next_oid w in
    (inr oid,
     {| stored_memories := (oid, doc) :: stored_memories w;
        buffered_memories := buffered_memories w;
        audit_logs := audit_logs w; next_oid := N.succ oid;
        faults := faults w;
        journal := journal w ++ [InsertStored oid] |})) : M _).

(** [self.buffered_memories.insert_one(memory_dict)]; a key already in
    the collection is refused. *)
Definition insert_buffered (doc : BufferedMemory) : M N :=
  db_call ;;
  ((fun w =>
    let oid := next_oid w in
    match buffered_memories w !! oid with
    | Some _ => (inl "E11000 duplicate key error", w)
    | None =>
        (inr oid,
         {| stored_memories := stored_memories w;
            buffered_memories := <[oid := doc]> (buffered_memories w);
            audit_logs := audit_logs w; next_oid := N.succ oid;
            faults := faults w;
            journal := journal w ++ [InsertBuffered oid] |})
    end) : M _).

(** [self.audit_logs.insert_one(audit_log)] *)
Definition insert_audit (entry : AuditLog) : M unit :=
  db_call ;;
  ((fun w =>
    (inr tt,
     {| stored_memories := stored_memories w;
        buffered_memories := buffered_memories w;
        audit_logs := entry :: audit_logs w; next_oid := next_oid w;
        faults := faults w;
        journal := journal w ++ [InsertAudit (al_action entry)] |})) : M _).

(** [self.buffered_memories.find_one({"_id": object_id})] *)
Definition find_one_buffered (object_id : N) : M (option BufferedMemory) :=
  db_call ;; ((fun w => (inr (buffered_memories w !! object_id), w)) : M _).

(** [self.buffered_memories.delete_one({"_id": object_id})] *)
Definition delete_one_buffered (object_id : N) : M unit :=
  db_call ;;
  ((fun w =>
    match buffered_memories w !! object_id with
    | None => (inr tt, w)
    | Some _ =>
        (inr tt,
         {| stored_memories := stored_memories w;
            buffered_memories := delete object_id (buffered_memories w);
            audit_logs := audit_logs w; next_oid := next_oid w;
            faults := faults w;
            journal := journal w ++ [DeleteBuffered object_id] |})
    end) : M _).

(** [self.stored_memories.find().skip(offset).limit(limit).sort("stored_at", -1)] *)
Definition find_stored (limit offset : nat) : M (list (N * StoredMemory)) :=
  db_call ;; ((fun w => (inr (take limit (drop offset (stored_memories w))), w)) : M _).

(** *** The methods of [MemoryStorage] *)

Definition _log_audit (action : string) (memory_id : string)
    (decision : option MemoryDecision) (candidate : CandidateMemory) : M unit :=
  try_except
    (insert_audit
       {| al_action := action;
          al_memory_id := memory_id;
          al_memory_type := value (memory_type candidate);
          al_content := content candidate;
          al_salience_score := salience_score candidate;
          al_decision := decision;
          al_evidence := extraction_evidence candidate |})
    (fun _ => ret tt).

Definition _generate_embedding (text : string) : Embedding := Seeded text.

(** The document goes to the database with its ["_id"] set to [None];
    the key, or the refusal, is the database's answer. *)
Definition store_memory (candidate : CandidateMemory)
    (decision : MemoryDecision) (final_content : string) : M string :=
  let embedding := _generate_embedding final_content in
  let stored_memory :=
    {| sm_id := None; sm_candidate := candidate; sm_decision := decision;
       final_content := final_content; embedding := Some embedding |} in
  inserted_id ← insert_stored stored_memory ;
  let memory_id := oid_str inserted_id in
  _log_audit "store" memory_id (Some decision) candidate ;;
  ret memory_id.

Definition buffer_memory (candidate : CandidateMemory)
    (buffer_reason : string) (buffer_score : Q) : M string :=
  let buffered_memory :=
    {| bm_id := None; bm_candidate := candidate;
       buffer_reason := buffer_reason; buffer_score := buffer_score |} in
  inserted_id ← insert_buffered buffered_memory ;
  let memory_id := oid_str inserted_id in
  _log_audit "buffer" memory_id None candidate ;;
  ret memory_id.

(** A stored document read back as a [StoredMemory]; [None] when a field
    of its candidate is refused. *)
Definition load_stored (doc : N * StoredMemory) : option StoredMemory :=
  let '(oid, m) := doc in
  if validate (sm_candidate m) then
    Some {| sm_id := Some (oid_str oid); sm_candidate := sm_candidate m;
            sm_decision := sm_decision m; final_content := final_content m;
            embedding := embedding m |}
  else None.

(** [[]] when anything raises. *)
Definition get_stored_memories (limit offset : nat) : M (list StoredMemory) :=
  try_except
    (docs ← find_stored limit offset ;
     match mapM load_stored docs with
     | Some memories => ret memories
     | None => raise "validation error for StoredMemory"
     end)
    (fun _ => ret []).

Definition approve_buffered_memory (memory_id : string)
    (admin_notes : option string) : M bool :=
  try_except
    (match ObjectId memory_id with
     | None => ret false
     | Some object_id =>
         buffered_doc ← find_one_buffered object_id ;
         match buffered_doc with
         | None => ret false
         | Some doc =>
             let candidate := bm_candidate doc in
             if negb (validate candidate)
             then raise "validation error for CandidateMemory"
             else
               let decision :=
                 {| action := keep; reason := "Approved by admin";
                    merged_with := None; admin_notes := admin_notes |} in
               try_except
                 (memory_id ← store_memory candidate decision (content candidate) ;
                  delete_one_buffered object_id ;;
                  _log_audit "approve" memory_id (Some decision) candidate ;;
                  ret true)
                 (fun store_error => ret false)
         end
     end)
    (fun e => ret false).

Definition reject_buffered_memory (memory_id : string)
    (admin_notes : option string) : M bool :=
  try_except
    (match ObjectId memory_id with
     | None => ret false
     | Some object_id =>
         buffered_doc ← find_one_buffered object_id ;
         match buffered_doc with
         | None => ret false
         | Some doc =>
             if negb (validate (bm_candidate doc))
             then raise "validation error for BufferedMemory"
             else
               let buffered_memory :=
                 {| bm_id := Some (oid_str object_id);
                    bm_candidate := bm_candidate doc;
                    buffer_reason := buffer_reason doc;
                    buffer_score := buffer_score doc |} in
               let decision :=
                 {| action := reject; reason := "Rejected by admin review";
                    merged_with := None; admin_notes := admin_notes |} in
               _log_audit "reject" memory_id (Some decision)
                          (bm_candidate buffered_memory) ;;
               delete_one_buffered object_id ;;
               ret true
         end
     end)
    (fun e => ret false).

End MemoryStorage.

(** ** decider_service.py *)

Module DeciderService.

Import MemoryStorage.

(** The three counters of step 5 and [all_decisions], whose elements the
    loop may change in place. *)
Record Tally := {
  all_decisions : list MemoryDecision;
  stored : nat;
  buffered : nat;
  rejected : nat
}.

Definition set_decision (t : Tally) (i : nat) (d : MemoryDecision) : Tally :=
  {| all_decisions := <[i := d]> (all_decisions t);
     stored := stored t; buffered := buffered t; rejected := rejected t |}.
Definition incr_stored (t : Tally) : Tally :=
  {| all_decisions := all_decisions t;
     stored := S (stored t); buffered := buffered t; rejected := rejected t |}.
Definition incr_buffered (t : Tally) : Tally :=
  {| all_decisions := all_decisions t;
     stored := stored t; buffered := S (buffered t); rejected := rejected t |}.
Definition incr_rejected (t : Tally) : Tally :=
  {| all_decisions := all_decisions t;
     stored := stored t; buffered := buffered t; rejected := S (rejected t) |}.

(** [all_decisions[i] if i < len(all_decisions) else initial_decisions[i]] *)
Definition decision_at (initial_decisions : list MemoryDecision) (t : Tally)
    (i : nat) : M MemoryDecision :=
  let chosen :=
    if (i <? length (all_decisions t))%nat then all_decisions t !! i
    else initial_decisions !! i in
  match chosen with
  | Some decision => mret decision
  | None => raise "list index out of range"
  end.

(** The [if decision.action == "keep"] statement; it gives back the
    decision as the statements after it see it. *)
Definition keep_step (i : nat) (candidate : CandidateMemory)
    (decision : MemoryDecision) (t : Tally) : M (MemoryDecision * Tally) :=
  match action decision with
  | keep =>
      try_except
        (memory_id ← store_memory candidate decision (content candidate) ;
         mret (decision, incr_stored t))
        (fun e =>
           let decision' :=
             {| action := buffer;
                reason := "Storage failed, buffering instead: " ++ e;
                merged_with := merged_with decision;
                admin_notes := admin_notes decision |} in
           mret (decision', set_decision t i decision'))
  | _ => mret (decision, t)
  end.

(** The [if decision.action == "buffer" ... elif ... elif] statement. *)
Definition buffer_step (candidate : CandidateMemory) (score : Q)
    (decision : MemoryDecision) (t : Tally) : M Tally :=
  match action decision with
  | buffer =>
      try_except
        (buffer_id ← buffer_memory candidate (reason decision) score ;
         mret (incr_buffered t))
        (fun e => mret (incr_rejected t))
  | reject => mret (incr_rejected t)
  | merge => mret t
  | keep => mret t
  end.

(** One turn of the loop of step 5. *)
Definition process_candidate (initial_decisions : list MemoryDecision)
    (i : nat) (candidate : CandidateMemory) (score : Q) (t : Tally) : M Tally :=
  decision ← decision_at initial_decisions t i ;
  '(decision, t) ← keep_step i candidate decision t ;
  buffer_step candidate score decision t.

(** The loop, from index [i] on [scored_candidates[i:]]. *)
Fixpoint process_from (initial_decisions : list MemoryDecision) (i : nat)
    (scored_candidates : list (CandidateMemory * Q)) (t : Tally) : M Tally :=
  match scored_candidates with
  | [] => mret t
  | (candidate, score) :: rest =>
      t ← process_candidate initial_decisions i candidate score t ;
      process_from initial_decisions (S i) rest t
  end.

Section Service.
Variable cfg : Config.t.

(** [extract_and_store], from the candidates the extractor gave
    (step 1 of the method). *)
Definition extract_and_store (extracted : list CandidateMemory)
  : M ExtractionResponse :=
  match extracted with
  | [] =>
      mret {| candidates := []; decisions := []; stored_count := 0;
              buffered_count := 0; rejected_count := 0 |}
  | _ =>
      let scored_candidates := MemoryScorer.score_memories cfg extracted in
      let initial_decisions := MemoryScorer.make_decisions cfg scored_candidates in
      stored_window ← get_stored_memories 1000 0 ;
      match MemoryDeduper.deduplicate_memories cfg
              (map fst scored_candidates) stored_window with
      | inl e => raise e
      | inr (dedup_decisions, remaining_candidates) =>
          let all_decisions := initial_decisions ++ dedup_decisions in
          t ← process_from initial_decisions 0 scored_candidates
                {| all_decisions := all_decisions;
                   stored := 0; buffered := 0; rejected := 0 |} ;
          mret {| candidates := map fst scored_candidates;
                  decisions := DeciderService.all_decisions t;
                  stored_count := stored t;
                  buffered_count := buffered t;
                  rejected_count := rejected t |}
      end
  end.

End Service.

(** [DeciderService.approve_buffered_memory]: [False] when the storage
    raises. *)
Definition approve_buffered_memory (memory_id : string)
    (admin_notes : option string) : M bool :=
  try_except (MemoryStorage.approve_buffered_memory memory_id admin_notes)
             (fun e => mret false).

Definition reject_buffered_memory (memory_id : string)
    (admin_notes : option string) : M bool :=
  try_except (MemoryStorage.reject_buffered_memory memory_id admin_notes)
             (fun e => mret false).

End DeciderService.

(** ** main.py: the two review endpoints *)

Module Main.

Import MemoryStorage.

Inductive HttpResponse :=
| Ok200 (message : string) (memory_id : string)
| HttpError (status_code : nat).

(** The [HTTPException(404)] of the [else] branch is raised inside the
    [try], whose [except Exception] turns it into a 500. *)
Definition respond (success : bool) (message memory_id : string) : HttpResponse :=
  let in_try :=
    if success then inr (Ok200 message memory_id) else inl 404%nat in
  match in_try with
  | inr r => r
  | inl _ => HttpError 500
  end.

Definition approve_buffered_memory (memory_id : string)
    (request : AdminReviewRequest) : World -> HttpResponse * World :=
  fun w =>
    match DeciderService.approve_buffered_memory memory_id (notes request) w with
    | (inr success, w') =>
        (respond success "Memory approved successfully" memory_id, w')
    | (inl e, w') => (HttpError 500, w')
    end.

Definition reject_buffered_memory (memory_id : string)
    (request : AdminReviewRequest) : World -> HttpResponse * World :=
  fun w =>
    match DeciderService.reject_buffered_memory memory_id (notes request) w with
    | (inr success, w') =>
        (respond success "Memory rejected successfully" memory_id, w')
    | (inl e, w') => (HttpError 500, w')
    end.

End Main.

(** ** Vocabulary of the statements, and sample inputs *)

Module Terms.

Import MemoryScorer MemoryStorage.

(** The acceptance threshold of the candidate's type. *)
Definition T_type (cfg : Config.t) (candidate : CandidateMemory) : Q :=
  threshold_of cfg (value (memory_type candidate)).

(** The blend of the three features, before rounding. *)
Definition weighted_sum (cfg : Config.t) (candidate : CandidateMemory) : Q :=
  Config.w_relevance (Config.SCORING_WEIGHTS cfg) * relevance candidate
  + Config.w_specificity (Config.SCORING_WEIGHTS cfg) * specificity candidate
  + Config.w_confidence (Config.SCORING_WEIGHTS cfg) * confidence candidate.

Definition unit_interval (x : Q) : Prop := 0 <= x /\ x <= 1.

(** Two worlds with the same collections, key counter and journal: they
    differ at most by the outcomes still to come. *)
Definition same_data (w w' : World) : Prop :=
  stored_memories w' = stored_memories w
  /\ buffered_memories w' = buffered_memories w
  /\ audit_logs w' = audit_logs w
  /\ next_oid w' = next_oid w
  /\ journal w' = journal w.

(** A database that answers every call from now on. *)
Definition quiet (w : World) : Prop := faults w = [].

(** The journal of [w'] is the journal of [w] followed by [writes]. *)
Definition wrote (w w' : World) (writes : list DbWrite) : Prop :=
  journal w' = journal w ++ writes.

(** The decision [approve_buffered_memory] builds. *)
Definition approval (admin_notes : option string) : MemoryDecision :=
  {| action := keep; reason := "Approved by admin";
     merged_with := None; admin_notes := admin_notes |}.

(** The document [store_memory] hands to the database. *)
Definition stored_doc (candidate : CandidateMemory) (decision : MemoryDecision)
    (final_content : string) : StoredMemory :=
  {| sm_id := None; sm_candidate := candidate; sm_decision := decision;
     final_content := final_content;
     embedding := Some (_generate_embedding final_content) |}.

(** The decision a failed insert leaves in [all_decisions]. *)
Definition downgraded (decision : MemoryDecision) (e : string) : MemoryDecision :=
  {| action := buffer;
     reason := "Storage failed, buffering instead: " ++ e;
     merged_with := merged_with decision;
     admin_notes := admin_notes decision |}.

(** What one decision adds to the three counters of the batch when it is
    executed: a merge adds nothing, any other decision adds one. *)
Definition counted (decision : MemoryDecision) : nat :=
  match action decision with merge => 0 | _ => 1 end.

Definition counted_in (decisions : list MemoryDecision) : nat :=
  list_sum (map counted decisions).

(** The record [buffer_memory] hands to the database. *)
Definition buffered_doc (candidate : CandidateMemory) (buffer_reason : string)
    (buffer_score : Q) : BufferedMemory :=
  {| bm_id := None; bm_candidate := candidate;
     buffer_reason := buffer_reason; buffer_score := buffer_score |}.

(** What a merge of the within-batch pass is expected to record, for the
    candidates [l] of the pass: two different candidates at least as
    similar as the threshold asks, the kept one with the higher salience
    (the earlier one when they are equal), and a merge decision that refers
    to the kept one. *)
Definition merge_of_pair (cfg : Config.t) (l : list CandidateMemory)
    (e : MemoryDeduper.MergeEvent) : Prop :=
  exists kept merged,
    l !! MemoryDeduper.keep_idx e = Some kept
    /\ l !! MemoryDeduper.merge_idx e = Some merged
    /\ MemoryDeduper.keep_idx e <> MemoryDeduper.merge_idx e
    /\ Config.SIMILARITY_THRESHOLD cfg
       <= MemoryDeduper._calculate_text_similarity (content kept) (content merged)
    /\ salience_score merged <= salience_score kept
    /\ (salience_score merged == salience_score kept ->
        (MemoryDeduper.keep_idx e < MemoryDeduper.merge_idx e)%nat)
    /\ action (MemoryDeduper.ev_decision e) = merge
    /\ merged_with (MemoryDeduper.ev_decision e) = id kept.

(** Candidates in the order the Scorer returns them. *)
Definition by_decreasing_salience (l : list CandidateMemory) : Prop :=
  StronglySorted (fun a b => salience_score b <= salience_score a) l.

(** The two review operations. *)
Inductive Review := Approve | Reject.

Definition resolve_buffered (review : Review) (memory_id : string)
    (admin_notes : option string) : M bool :=
  match review with
  | Approve => approve_buffered_memory memory_id admin_notes
  | Reject => reject_buffered_memory memory_id admin_notes
  end.

End Terms.

Module Samples.

Import MemoryStorage.

(** A goal scored 0.5 under the default configuration sits on the buffer
    threshold, below the goal threshold 0.6. *)
Definition sample_goal : CandidateMemory :=
  {| id := None; memory_type := GOAL; content := "run a marathon";
     confidence := 0.5; relevance := 0.5; specificity := 0.5;
     salience_score := 0.5;
     source_turn := {| speaker := "user"; text := "I want to run a marathon." |};
     extraction_evidence := "Pattern match" |}.



(** What the extractor gives for the turn [text] said by the user when
    its first preference pattern matches "hiking on weekends"; the
    confidence is 1 when the turn ends with a full stop and 0.8 when it
    does not, which makes the extractor's own salience 0.7 or 0.62. *)
Definition hiking (text : string) (confidence salience_score : Q) : CandidateMemory :=
  {| id := None; memory_type := PREFERENCE; content := "hiking on weekends";
     confidence := confidence; relevance := 0.5; specificity := 0.5;
     salience_score := salience_score;
     source_turn := {| speaker := "user"; text := text |};
     extraction_evidence := "Pattern match" |}.

Definition hiking_love : CandidateMemory :=
  hiking "I love hiking on weekends." 1 0.7.
Definition hiking_enjoy : CandidateMemory :=
  hiking "I enjoy hiking on weekends." 1 0.7.
Definition hiking_like : CandidateMemory :=
  hiking "I like hiking on weekends" 0.8 0.62.

(** A database with nothing in it, which answers every call. *)
Definition empty_world : World :=
  {| stored_memories := []; buffered_memories := ∅; audit_logs := [];
     next_oid := 0; faults := []; journal := [] |}.

(** The same database, refusing the calls as [script] says. *)
Definition failing_world (script : list (option string)) : World :=
  set_faults empty_world script.

(** A database holding one buffered memory, under key 7: the candidate
    as the Scorer scored it, buffered after a failed insert. *)
Definition buffered_hiking : BufferedMemory :=
  {| bm_id := None; bm_candidate := set_salience_score hiking_love 0.65;
     buffer_reason := "Storage failed, buffering instead: connection refused";
     buffer_score := 0.65 |}.

Definition review_world (script : list (option string)) : World :=
  {| stored_memories := []; buffered_memories := {[ 7%N := buffered_hiking ]};
     audit_logs := []; next_oid := 8; faults := script; journal := [] |}.

Definition review_id : string := "000000000000000000000007".

(** The decision of the Scorer for [hiking_love] under the default
    configuration, and a batch loop about to execute it. *)
Definition hiking_scored : CandidateMemory := set_salience_score hiking_love 0.65.

Definition hiking_kept : MemoryDecision :=
  new_decision keep "Score 0.650 meets preference threshold 0.5".


Definition fresh_tally (decisions : list MemoryDecision) : DeciderService.Tally :=
  {| DeciderService.all_decisions := decisions; DeciderService.stored := 0;
     DeciderService.buffered := 0; DeciderService.rejected := 0 |}.

End Samples.

(** ** scorer.py: the statistics *)

Module ScorerStatistics.

(** The dictionary [get_statistics] returns, by key. *)
Record Statistics := {
  total : nat;
  kept : nat;
  buffered : nat;
  rejected : nat;
  merged : nat
}.

Definition is_action (a : Action) (d : MemoryDecision) : bool :=
  match a, action d with
  | keep, keep | buffer, buffer | reject, reject | merge, merge => true
  | _, _ => false
  end.

Definition get_statistics (decisions : list MemoryDecision) : Statistics :=
  {| total := length decisions;
     kept := length (filter (fun d => is_action keep d = true) decisions);
     buffered := length (filter (fun d => is_action buffer d = true) decisions);
     rejected := length (filter (fun d => is_action reject d = true) decisions);
     merged := length (filter (fun d => is_action merge d = true) decisions) |}.

End ScorerStatistics.

(** ** storage.py, decider_service.py, main.py: listing and health *)

Module Listing.

Import MemoryStorage.


End Listing.

Module Health.

Import MemoryStorage.

(** [self.db.command("ping")] *)
Definition ping : M unit := db_call.

(** [count_documents({})] on the three collections. *)
Definition count_stored : M nat :=
  db_call ;; ((fun w => (inr (length (stored_memories w)), w)) : M _).
Definition count_buffered : M nat :=
  db_call ;; ((fun w => (inr (size (buffered_memories w)), w)) : M _).
Definition count_audit : M nat :=
  db_call ;; ((fun w => (inr (length (audit_logs w)), w)) : M _).

(** The dictionary of [MemoryStorage.health_check]. *)
Record DbHealth := {
  db_status : string;
  db_database : string;
  db_collections : gmap string nat
}.

Definition storage_health_check : M DbHealth :=
  try_except
    (ping ;;
     stored_count ← count_stored ;
     buffered_count ← count_buffered ;
     audit_count ← count_audit ;
     mret {| db_status := "healthy"; db_database := "connected";
             db_collections :=
               <["stored_memories" := stored_count]>
               (<["buffered_memories" := buffered_count]>
               (<["audit_logs" := audit_count]> ∅)) |})
    (fun e => mret {| db_status := "unhealthy";
                      db_database := "error: " ++ e;
                      db_collections := ∅ |}).

(** The dictionary of [DeciderService.health_check], without its
    timestamp. *)
Record ServiceHealth := {
  service : string;
  database_status : string;
  database_collections : gmap string nat;
  error : option string
}.

Definition service_health_check : M ServiceHealth :=
  try_except
    (db_health ← storage_health_check ;
     mret {| service := "healthy";
             database_status := db_database db_health;
             database_collections := db_collections db_health;
             error := None |})
    (fun e => mret {| service := "unhealthy"; database_status := "error";
                      database_collections := ∅; error := Some e |}).

(** [HealthResponse], without its timestamp. *)
Record HealthResponse := {
  status : string;
  database : string;
  collections : gmap string nat
}.

(** The endpoint [/health/db]. *)
Definition health_check : World -> HealthResponse * World :=
  fun w =>
    match service_health_check w with
    | (inr health, w') =>
        ({| status := service health; database := database_status health;
            collections := database_collections health |}, w')
    | (inl e, w') =>
        ({| status := "unhealthy"; database := "error"; collections := ∅ |}, w')
    end.

End Health.

(** ** extractor.py *)

Module MemoryExtractor.

(** [str.strip], [str.startswith], [str.endswith], [x in s]. *)
Fixpoint lstrip (s : string) : string :=
  match s with
  | EmptyString => EmptyString
  | String c s' => if Py.isspace c then lstrip s' else s
  end.

Definition strip (s : string) : string :=
  String.rev (lstrip (String.rev (lstrip s))).

Definition startswith (s p : string) : bool := String.prefix p s.

Definition endswith (s p : string) : bool :=
  String.prefix (String.rev p) (String.rev s).

Fixpoint contains (needle s : string) : bool :=
  String.prefix needle s ||
  match s with
  | EmptyString => false
  | String _ s' => contains needle s'
  end.

(** [min(x, y)] on floats. *)
Definition fmin (x y : Q) : Q := if Qle_bool x y then x else y.

(** [re.search(r'\d+', s)] on an ASCII text: a digit somewhere. *)
Definition isdigit (c : ascii) : bool :=
  let n := nat_of_ascii c in (48 <=? n)%nat && (n <=? 57)%nat.

Fixpoint has_digit (s : string) : bool :=
  match s with
  | EmptyString => false
  | String c s' => isdigit c || has_digit s'
  end.

(** [self.patterns], in the order the dictionary is written. *)
Definition patterns : list (MemoryType * list string) :=
  [ (PREFERENCE,
     [ "\b(?:I|I\'m|I am)\s+(?:prefer|like|enjoy|love|hate|dislike)\s+(?:to\s+)?(.+?)(?:\.|!|\?|$)";
       "\b(?:I|I\'m|I am)\s+(?:not\s+)?(?:a\s+)?(?:fan\s+of|fond\s+of)\s+(.+?)(?:\.|!|\?|$)";
       "\b(?:I|I\'m|I am)\s+(?:would\s+)?(?:rather|prefer)\s+(?:to\s+)?(.+?)(?:\.|!|\?|$)" ]);
    (GOAL,
     [ "\b(?:I|I\'m|I am)\s+(?:want|wish|hope|plan|aim|intend)\s+(?:to\s+)?(.+?)(?:\.|!|\?|$)";
       "\b(?:My|The)\s+(?:goal|objective|target|aim|plan)\s+(?:is|was)\s+(?:to\s+)?(.+?)(?:\.|!|\?|$)";
       "\b(?:I|I\'m|I am)\s+(?:working\s+)?(?:towards|on)\s+(.+?)(?:\.|!|\?|$)" ]);
    (COMMITMENT,
     [ "\b(?:I|I\'m|I am)\s+(?:will|shall|promise|commit|guarantee)\s+(?:to\s+)?(.+?)(?:\.|!|\?|$)";
       "\b(?:I|I\'m|I am)\s+(?:going\s+to|gonna)\s+(.+?)(?:\.|!|\?|$)";
       "\b(?:I|I\'m|I am)\s+(?:dedicated|committed)\s+(?:to\s+)?(.+?)(?:\.|!|\?|$)" ]);
    (SKILL,
     [ "\b(?:I|I\'m|I am)\s+(?:know|can|able\s+to|experienced\s+with|familiar\s+with)\s+(.+?)(?:\.|!|\?|$)";
       "\b(?:I|I\'m|I am)\s+(?:good|great|excellent|skilled|proficient)\s+(?:at|with|in)\s+(.+?)(?:\.|!|\?|$)";
       "\b(?:I|I\'m|I am)\s+(?:learning|studying|practicing)\s+(.+?)(?:\.|!|\?|$)" ]);
    (FEEDBACK,
     [ "\b(?:I|I\'m|I am)\s+(?:think|feel|believe|find|consider)\s+(?:that\s+)?(.+?)(?:\.|!|\?|$)";
       "\b(?:This|That|It)\s+(?:is|was|feels|seems)\s+(.+?)(?:\.|!|\?|$)";
       "\b(?:I|I\'m|I am)\s+(?:satisfied|happy|unhappy|disappointed|pleased)\s+(?:with|about)\s+(.+?)(?:\.|!|\?|$)" ]) ].

Section Extractor.

(** The regular expressions are matched by Python's [re]:
    [finditer pattern text] stands for the first group of every match of
    [re.finditer(pattern, text, re.IGNORECASE)], in order. *)
Variable finditer : string -> string -> list string.

(** [re.search(pattern, text, re.IGNORECASE)]: there is a match. *)
Definition search (pattern text : string) : bool :=
  match finditer pattern text with [] => false | _ => true end.

Definition _calculate_confidence (text content : string)
    (memory_type : MemoryType) (pattern : string) : Q :=
  let confidence := 0 in
  let confidence :=
    if search pattern text then confidence + 0.6 else confidence in
  let confidence :=
    if endswith text "." || endswith text "!" || endswith text "?"
    then confidence + 0.2 else confidence in
  let confidence :=
    if (10 <? String.length content)%nat
       && negb (existsb (startswith content) ["the"; "a"; "an"; "and"; "or"; "but"])
    then confidence + 0.2 else confidence in
  Qred (fmin confidence 1).

Definition _calculate_relevance (content : string) (memory_type : MemoryType) : Q :=
  let relevance := 0.5 in
  let relevance :=
    if existsb (fun word => contains word (Py.lower content))
         ["learn"; "study"; "work"; "practice"; "improve"; "develop"]
    then relevance + 0.3 else relevance in
  let relevance :=
    if existsb (startswith (Py.lower content)) ["i "; "my "; "me "]
    then relevance + 0.2 else relevance in
  Qred (fmin relevance 1).

Definition _calculate_specificity (content : string) : Q :=
  let specificity := 0.5 in
  let specificity :=
    if existsb (fun word => contains word (Py.lower content))
         ["python"; "machine learning"; "data science"; "2 hours"; "every evening"]
    then specificity + 0.3 else specificity in
  let specificity :=
    if has_digit content then specificity + 0.2 else specificity in
  Qred (fmin specificity 1).

(** The body of the loop over the matches: [None] for [continue], [inl]
    when the constructor of [CandidateMemory] refuses a field. *)
Definition candidate_of_match (turn : ConversationTurn) (text : string)
    (memory_type : MemoryType) (pattern : string) (group1 : string)
  : option (string + CandidateMemory) :=
  let content := strip group1 in
  if (String.length content <? 5)%nat
     || existsb (String.eqb (Py.lower content))
          ["it"; "this"; "that"; "something"; "things"]
  then None
  else
    let confidence := _calculate_confidence text content memory_type pattern in
    let relevance := _calculate_relevance content memory_type in
    let specificity := _calculate_specificity content in
    let salience_score :=
      Qred (confidence * 0.4 + relevance * 0.4 + specificity * 0.2) in
    let candidate :=
      {| id := None; memory_type := memory_type; content := content;
         confidence := confidence; relevance := relevance;
         specificity := specificity; salience_score := salience_score;
         source_turn := turn;
         extraction_evidence := "Pattern match: " ++ pattern |} in
    Some (if validate candidate then inr candidate
          else inl "validation error for CandidateMemory").

(** The matches of a turn's text, in the order of the three loops. *)
Definition matches_of (text : string) : list (MemoryType * string * string) :=
  flat_map (fun '(memory_type, type_patterns) =>
    flat_map (fun pattern =>
      map (fun group1 => (memory_type, pattern, group1)) (finditer pattern text))
      type_patterns)
    patterns.

Fixpoint candidates_of_matches (turn : ConversationTurn) (text : string)
    (l : list (MemoryType * string * string))
  : string + list CandidateMemory :=
  match l with
  | [] => inr []
  | (memory_type, pattern, group1) :: l' =>
      match candidate_of_match turn text memory_type pattern group1 with
      | None => candidates_of_matches turn text l'
      | Some (inl e) => inl e
      | Some (inr candidate) =>
          match candidates_of_matches turn text l' with
          | inl e => inl e
          | inr candidates => inr (candidate :: candidates)
          end
      end
  end.

Definition _extract_from_turn (turn : ConversationTurn)
  : string + list CandidateMemory :=
  let text := strip (text turn) in
  if (String.length text <? 10)%nat
     || existsb (String.eqb (Py.lower text))
          ["yes"; "no"; "ok"; "okay"; "thanks"; "thank you"]
  then inr []
  else candidates_of_matches turn text (matches_of text).

Fixpoint extract_memories (turns : list ConversationTurn)
  : string + list CandidateMemory :=
  match turns with
  | [] => inr []
  | turn :: turns' =>
      if String.eqb (Py.lower (speaker turn)) "user" then
        match _extract_from_turn turn with
        | inl e => inl e
        | inr turn_candidates =>
            match extract_memories turns' with
            | inl e => inl e
            | inr candidates => inr (turn_candidates ++ candidates)
            end
        end
      else extract_memories turns'
  end.

(** [DeciderService.extract_and_store], from the request's turns. *)
Definition extract_and_store_turns (cfg : Config.t)
    (turns : list ConversationTurn) : MemoryStorage.M ExtractionResponse :=
  match extract_memories turns with
  | inl e => MemoryStorage.raise e
  | inr candidates => DeciderService.extract_and_store cfg candidates
  end.

End Extractor.

End MemoryExtractor.

(** ** Vocabulary of the further statements *)

Module MoreTerms.

Import MemoryDeduper MemoryStorage.

(** What the search of the first pass knows after it has seen the stored
    memories [seen]: no memory with an embedding is more similar to the
    candidate than [best.2], and [best.1] is a memory that is that
    similar, if the similarity is not 0. *)
Definition best_so_far (candidate : CandidateMemory) (seen : list StoredMemory)
    (best : option StoredMemory * Q) : Prop :=
  (forall x, x ∈ seen -> embedding x <> None ->
     _calculate_text_similarity (content candidate) (final_content x) <= best.2)
  /\ match best.1 with
     | Some x =>
         x ∈ seen /\ embedding x <> None /\ 0 < best.2
         /\ best.2 = _calculate_text_similarity (content candidate) (final_content x)
     | None => best.2 = 0
     end.

(** Every document of the two collections passes the field validation of
    [CandidateMemory]. *)
Definition valid_world (w : World) : Prop :=
  (forall doc, doc ∈ stored_memories w -> validate (sm_candidate doc.2) = true)
  /\ (forall k doc, buffered_memories w !! k = Some doc ->
        validate (bm_candidate doc) = true).


(** The documents [find().skip(offset).limit(limit)] selects. *)
Definition page (limit offset : nat) (w : World) : list (N * StoredMemory) :=
  take limit (drop offset (stored_memories w)).

(** What the extractor promises of a candidate it built from [turn]. *)
Definition well_extracted (turn : ConversationTurn) (c : CandidateMemory) : Prop :=
  source_turn c = turn
  /\ id c = None
  /\ validate c = true
  /\ 0.6 <= confidence c /\ confidence c <= 1
  /\ 0.5 <= relevance c /\ relevance c <= 1
  /\ 0.5 <= specificity c /\ specificity c <= 1
  /\ salience_score c
     == confidence c * 0.4 + relevance c * 0.4 + specificity c * 0.2
  /\ (5 <= String.length (content c))%nat.

(** The features of a candidate are in [0,1]. *)
Definition unit_features (c : CandidateMemory) : Prop :=
  Terms.unit_interval (relevance c) /\ Terms.unit_interval (specificity c)
  /\ Terms.unit_interval (confidence c).

(** The weights are not negative and add up to 1. *)
Definition convex_weights (cfg : Config.t) : Prop :=
  0 <= Config.w_relevance (Config.SCORING_WEIGHTS cfg)
  /\ 0 <= Config.w_specificity (Config.SCORING_WEIGHTS cfg)
  /\ 0 <= Config.w_confidence (Config.SCORING_WEIGHTS cfg)
  /\ Config.w_relevance (Config.SCORING_WEIGHTS cfg)
     + Config.w_specificity (Config.SCORING_WEIGHTS cfg)
     + Config.w_confidence (Config.SCORING_WEIGHTS cfg) == 1.

End MoreTerms.

Module MoreSamples.

Import MemoryStorage Samples.

(** A memory as [get_stored_memories] reads it back. *)
Definition stored_hiking : StoredMemory :=
  {| sm_id := Some (oid_str 3); sm_candidate := hiking_scored;
     sm_decision := hiking_kept; final_content := "hiking on weekends";
     embedding := Some (_generate_embedding "hiking on weekends") |}.

(** A regular expression engine that finds "hiking on weekends" with the
    first preference pattern and nothing else. *)
Definition finds_hiking (pattern text : string) : list string :=
  if String.eqb pattern
       "\b(?:I|I\'m|I am)\s+(?:prefer|like|enjoy|love|hate|dislike)\s+(?:to\s+)?(.+?)(?:\.|!|\?|$)"
  then ["hiking on weekends"] else [].

Definition user_turn : ConversationTurn :=
  {| speaker := "User"; text := "I love hiking on weekends." |}.

Definition assistant_turn : ConversationTurn :=
  {| speaker := "assistant"; text := "I love hiking on weekends." |}.


(** The default configuration with a similarity threshold of 0. *)
Definition zero_threshold : Config.t :=
  {| Config.SCORING_WEIGHTS := Config.SCORING_WEIGHTS Config.default;
     Config.THRESHOLDS := Config.THRESHOLDS Config.default;
     Config.SIMILARITY_THRESHOLD := 0;
     Config.BUFFER_THRESHOLD := Config.BUFFER_THRESHOLD Config.default |}.

End MoreSamples.

(** * Properties *)

(** ** Checks of the embedding on small inputs *)

Example round3_tie_to_even : Py.round3 0.0625 == 0.062 /\ Py.round3 0.1875 == 0.188.
Proof. split; vm_compute; reflexivity. Qed.

Example split_lower_words :
  Py.split (Py.lower "  I Love   hiking ") = ["i"; "love"; "hiking"].
Proof. reflexivity. Qed.

Example format_floats :
  Py.format_3f 0.85 = "0.850" /\ Py.float_str 0.5 = "0.5" /\ Py.float_str 1 = "1.0".
Proof. repeat split; vm_compute; reflexivity. Qed.

(** Equal scores keep the order of the batch; greater scores come first. *)
Example score_memories_stable :
  map (fun x => (text (source_turn x.1), x.2))
      (MemoryScorer.score_memories Config.default
         [Samples.hiking_like; Samples.hiking_love; Samples.hiking_enjoy])
  = [("I love hiking on weekends.", 13 # 20);
     ("I enjoy hiking on weekends.", 13 # 20);
     ("I like hiking on weekends", 59 # 100)].
Proof. vm_compute. reflexivity. Qed.

Example object_id_of_str :
  MemoryStorage.ObjectId (MemoryStorage.oid_str 255) = Some 255%N
  /\ MemoryStorage.ObjectId "not-an-id" = None.
Proof. split; vm_compute; reflexivity. Qed.

(** ** Arithmetic of the primitives *)

Section PyFacts.

Lemma ge_spec (x y : Q) : Py.ge x y = true <-> y <= x.
Proof. unfold Py.ge. apply Qle_bool_iff. Qed.

Lemma ge_false (x y : Q) : Py.ge x y = false <-> x < y.
Proof.
  unfold Py.ge. split; intros H.
  - apply Qnot_le_lt. intros Hle. apply Qle_bool_iff in Hle. congruence.
  - destruct (Qle_bool y x) eqn:E; [|reflexivity].
    apply Qle_bool_iff in E. exfalso. apply (Qlt_not_le _ _ H E).
Qed.

Lemma true_div_self (n : nat) : (0 < n)%nat -> Py.true_div n n = 1.
Proof.
  intros Hn. unfold Py.true_div.
  change 1 with (Qred 1). apply Qred_complete.
  unfold Qeq. cbn [Qnum Qden].
  rewrite Z.mul_1_r, Z.mul_1_l.
  rewrite <- (positive_nat_Z (Pos.of_nat n)), Nat2Pos.id; [reflexivity | lia].
Qed.

Lemma true_div_zero (n : nat) : Py.true_div 0 n = 0.
Proof.
  unfold Py.true_div. change (Qred (0 # Pos.of_nat n) = Qred 0).
  apply Qred_complete. reflexivity.
Qed.

(** The nearest integer is within one half. *)
Lemma round_half_even_near (x : Q) :
  inject_Z (Py.round_half_even x) - (1 # 2) <= x
  /\ x <= inject_Z (Py.round_half_even x) + (1 # 2).
Proof.
  destruct x as [num den]. unfold Py.round_half_even. cbn [Qnum Qden].
  pose proof (Z.div_mod num (Zpos den) ltac:(lia)) as Hdm.
  pose proof (Z.mod_pos_bound num (Zpos den) ltac:(lia)) as Hb.
  set (q := (num / Zpos den)%Z) in *. set (r := (num mod Zpos den)%Z) in *.
  assert (Hcases :
    forall k : Z, (2 * Z.abs (num - k * Zpos den) <= Zpos den)%Z ->
      inject_Z k - (1 # 2) <= num # den /\ num # den <= inject_Z k + (1 # 2)).
  { intros k Hk. unfold Qle, Qminus, Qplus, Qopp, inject_Z. cbn [Qnum Qden].
    split; nia. }
  destruct (2 * r <? Zpos den)%Z eqn:E1; [apply Hcases; lia|].
  destruct (Zpos den <? 2 * r)%Z eqn:E2; [apply Hcases; lia|].
  destruct (Z.even q); apply Hcases; lia.
Qed.

(** Rounding does not cross an integer. *)
Lemma round_half_even_between (x : Q) (a b : Z) :
  inject_Z a <= x -> x <= inject_Z b ->
  (a <= Py.round_half_even x <= b)%Z.
Proof.
  intros Ha Hb. destruct (round_half_even_near x) as [Hlo Hhi].
  set (n := Py.round_half_even x) in *.
  split.
  - assert (H : inject_Z a <= inject_Z n + (1 # 2)) by lra.
    unfold Qle, Qplus, inject_Z in H. cbn [Qnum Qden] in H. lia.
  - assert (H : inject_Z n - (1 # 2) <= inject_Z b) by lra.
    unfold Qle, Qminus, Qplus, Qopp, inject_Z in H. cbn [Qnum Qden] in H. lia.
Qed.

(** [round(x, 3)] is a number of thousandths, the nearest to [x]. *)
Lemma round3_thousandths (x : Q) :
  Py.round3 x == Py.round_half_even (x * 1000) # 1000.
Proof. unfold Py.round3. apply Qred_correct. Qed.


Lemma round3_unit (x : Q) : 0 <= x -> x <= 1 -> 0 <= Py.round3 x /\ Py.round3 x <= 1.
Proof.
  intros H0 H1. rewrite round3_thousandths.
  destruct (round_half_even_between (x * 1000) 0 1000) as [Hlo Hhi].
  - change (inject_Z 0) with 0. lra.
  - change (inject_Z 1000) with 1000. lra.
  - unfold Qle. cbn [Qnum Qden]. lia.
Qed.

End PyFacts.

(** ** The text similarity of the Deduper *)

Module SimilaritySpec.

Import MemoryDeduper.

Lemma similarity_comm (A B : string) :
  _calculate_text_similarity A B = _calculate_text_similarity B A.
Proof.
  unfold _calculate_text_similarity.
  rewrite (orb_comm (bool_decide (words A = ∅))).
  assert (Hi : words A ∩ words B = words B ∩ words A) by set_solver.
  assert (Hu : words A ∪ words B = words B ∪ words A) by set_solver.
  rewrite Hi, Hu. reflexivity.
Qed.

Lemma similarity_self (A : string) :
  words A ≠ ∅ -> _calculate_text_similarity A A = 1.
Proof.
  intros Hne. unfold _calculate_text_similarity.
  rewrite bool_decide_eq_false_2 by exact Hne. cbn [orb].
  assert (Hi : words A ∩ words A = words A) by set_solver.
  assert (Hu : words A ∪ words A = words A) by set_solver.
  rewrite Hi, Hu.
  assert (Hpos : (0 < size (words A))%nat).
  { destruct (size (words A)) eqn:E; [|lia].
    apply size_empty_inv in E. exfalso. apply Hne. by apply leibniz_equiv. }
  rewrite (proj2 (Nat.ltb_lt _ _) Hpos). by apply true_div_self.
Qed.

Lemma similarity_disjoint (A B : string) :
  words A ∩ words B = ∅ -> _calculate_text_similarity A B = 0.
Proof.
  intros Hd. unfold _calculate_text_similarity.
  destruct (bool_decide (words A = ∅) || bool_decide (words B = ∅)); [reflexivity|].
  rewrite Hd, size_empty.
  destruct (0 <? size (words A ∪ words B))%nat; [apply true_div_zero | reflexivity].
Qed.

Lemma similarity_empty (A B : string) :
  words A = ∅ \/ words B = ∅ -> _calculate_text_similarity A B = 0.
Proof.
  intros H. unfold _calculate_text_similarity.
  destruct H as [H|H]; rewrite H.
  - rewrite bool_decide_eq_true_2 by reflexivity. reflexivity.
  - rewrite (bool_decide_eq_true_2 (∅ = ∅)) by reflexivity.
    rewrite orb_true_r. reflexivity.
Qed.

(** C10: the similarity of two texts does not depend on their order; a
    text with at least one word is at similarity 1 of itself; two texts
    with no word in common are at similarity 0; and so are two texts one
    of which has no word at all. *)
Theorem text_similarity_jaccard_laws :
  (forall A B : string,
     _calculate_text_similarity A B = _calculate_text_similarity B A)
  /\ (forall A : string,
        words A ≠ ∅ -> _calculate_text_similarity A A = 1)
  /\ (forall A B : string,
        (forall w : string, ~ (w ∈ words A /\ w ∈ words B)) ->
        _calculate_text_similarity A B = 0)
  /\ (forall A B : string,
        words A = ∅ \/ words B = ∅ -> _calculate_text_similarity A B = 0).
Proof.
  split; [exact similarity_comm|].
  split; [exact similarity_self|].
  split; [|exact similarity_empty].
  intros A B Hno. apply similarity_disjoint.
  apply leibniz_equiv. intros w. split; [|set_solver].
  intros Hw. apply elem_of_intersection in Hw. exfalso. by apply (Hno w).
Qed.

Lemma text_similarity_jaccard_laws_witness :
  _calculate_text_similarity "I love hiking" "hiking I LOVE"
  = _calculate_text_similarity "hiking I LOVE" "I love hiking"
  /\ _calculate_text_similarity "I love hiking" "I love hiking" = 1
  /\ _calculate_text_similarity "I love hiking" "we hate rain" = 0
  /\ _calculate_text_similarity "   " "I love hiking" = 0.
Proof.
  destruct text_similarity_jaccard_laws as (Hsym & Hself & Hdisj & Hempty).
  split; [apply Hsym|].
  split; [apply Hself; vm_compute; discriminate|].
  split.
  - apply Hdisj. intros w [H1 H2].
    assert (E : words "I love hiking" ∩ words "we hate rain" = ∅)
      by (vm_compute; reflexivity).
    assert (H : w ∈ words "I love hiking" ∩ words "we hate rain")
      by (apply elem_of_intersection; split; assumption).
    rewrite E in H. exact (not_elem_of_empty w H).
  - apply Hempty. left. vm_compute. reflexivity.
Defined.

End SimilaritySpec.

(** ** The Scorer *)

Module ScorerSpec.

Import MemoryScorer Terms Samples.

Lemma evaluate_keep cfg candidate score :
  T_type cfg candidate <= score ->
  action (_evaluate_candidate cfg candidate score) = keep.
Proof.
  intros H. unfold _evaluate_candidate. fold (T_type cfg candidate).
  rewrite (proj2 (ge_spec _ _) H). reflexivity.
Qed.

Lemma evaluate_buffer cfg candidate score :
  buffer_threshold cfg <= score -> score < T_type cfg candidate ->
  action (_evaluate_candidate cfg candidate score) = buffer.
Proof.
  intros Hb Ht. unfold _evaluate_candidate. fold (T_type cfg candidate).
  rewrite (proj2 (ge_false _ _) Ht), (proj2 (ge_spec _ _) Hb). reflexivity.
Qed.

Lemma evaluate_reject cfg candidate score :
  score < buffer_threshold cfg -> score < T_type cfg candidate ->
  action (_evaluate_candidate cfg candidate score) = reject.
Proof.
  intros Hb Ht. unfold _evaluate_candidate. fold (T_type cfg candidate).
  rewrite (proj2 (ge_false _ _) Ht), (proj2 (ge_false _ _) Hb). reflexivity.
Qed.

(** C8: when the buffer threshold is below the threshold of the
    candidate's type, a score at or above the type threshold is kept, a
    score from the buffer threshold up to the type threshold is buffered,
    a score below the buffer threshold is rejected; a score equal to the
    buffer threshold is buffered. *)
Theorem evaluate_candidate_thresholds
    (cfg : Config.t) (candidate : CandidateMemory) (score : Q) :
  Config.BUFFER_THRESHOLD cfg < T_type cfg candidate ->
  (T_type cfg candidate <= score ->
     action (_evaluate_candidate cfg candidate score) = keep)
  /\ (Config.BUFFER_THRESHOLD cfg <= score /\ score < T_type cfg candidate ->
     action (_evaluate_candidate cfg candidate score) = buffer)
  /\ (score < Config.BUFFER_THRESHOLD cfg ->
     action (_evaluate_candidate cfg candidate score) = reject)
  /\ (score == Config.BUFFER_THRESHOLD cfg ->
     action (_evaluate_candidate cfg candidate score) = buffer).
Proof.
  intros Hlt. repeat split.
  - apply evaluate_keep.
  - intros [Hb Ht]. by apply evaluate_buffer.
  - intros Hb. apply evaluate_reject; [exact Hb|].
    unfold buffer_threshold in *. lra.
  - intros Heq. apply evaluate_buffer; unfold buffer_threshold; lra.
Qed.

Lemma evaluate_candidate_thresholds_witness :
  action (_evaluate_candidate Config.default sample_goal 0.6) = keep
  /\ action (_evaluate_candidate Config.default sample_goal 0.55) = buffer
  /\ action (_evaluate_candidate Config.default sample_goal 0.499) = reject
  /\ action (_evaluate_candidate Config.default sample_goal 0.5) = buffer.
Proof.
  assert (Hcfg : Config.BUFFER_THRESHOLD Config.default
                 < T_type Config.default sample_goal)
    by (vm_compute; reflexivity).
  split; [|split; [|split]].
  - destruct (evaluate_candidate_thresholds Config.default sample_goal 0.6 Hcfg)
      as (Hkeep & _). apply Hkeep. vm_compute. discriminate.
  - destruct (evaluate_candidate_thresholds Config.default sample_goal 0.55 Hcfg)
      as (_ & Hbuffer & _). apply Hbuffer.
    split; vm_compute; [discriminate | reflexivity].
  - destruct (evaluate_candidate_thresholds Config.default sample_goal 0.499 Hcfg)
      as (_ & _ & Hreject & _). apply Hreject. vm_compute. reflexivity.
  - destruct (evaluate_candidate_thresholds Config.default sample_goal 0.5 Hcfg)
      as (_ & _ & _ & Hedge). apply Hedge. vm_compute. reflexivity.
Defined.

Lemma weighted_sum_unit cfg candidate :
  unit_interval (relevance candidate) ->
  unit_interval (specificity candidate) ->
  unit_interval (confidence candidate) ->
  0 <= Config.w_relevance (Config.SCORING_WEIGHTS cfg) ->
  0 <= Config.w_specificity (Config.SCORING_WEIGHTS cfg) ->
  0 <= Config.w_confidence (Config.SCORING_WEIGHTS cfg) ->
  Config.w_relevance (Config.SCORING_WEIGHTS cfg)
  + Config.w_specificity (Config.SCORING_WEIGHTS cfg)
  + Config.w_confidence (Config.SCORING_WEIGHTS cfg) == 1 ->
  unit_interval (weighted_sum cfg candidate).
Proof.
  unfold unit_interval, weighted_sum.
  set (wr := Config.w_relevance _). set (ws := Config.w_specificity _).
  set (wc := Config.w_confidence _).
  intros [Hr0 Hr1] [Hs0 Hs1] [Hc0 Hc1] Hwr Hws Hwc Hsum.
  split.
  - pose proof (Qmult_le_0_compat _ _ Hwr Hr0).
    pose proof (Qmult_le_0_compat _ _ Hws Hs0).
    pose proof (Qmult_le_0_compat _ _ Hwc Hc0). lra.
  - assert (wr * relevance candidate <= wr) by nra.
    assert (ws * specificity candidate <= ws) by nra.
    assert (wc * confidence candidate <= wc) by nra.
    lra.
Qed.

Lemma In_insert_desc x y l : In x (insert_desc y l) <-> y = x \/ In x l.
Proof.
  induction l as [|z l IH]; cbn [insert_desc].
  - reflexivity.
  - destruct (Py.gt z.2 y.2); cbn [In]; [rewrite IH|]; intuition.
Qed.

Lemma In_sort_desc x l : In x (sort_desc l) <-> In x l.
Proof.
  induction l as [|y l IH]; cbn [sort_desc]; [reflexivity|].
  rewrite In_insert_desc, IH. reflexivity.
Qed.

Lemma length_insert_desc y l : length (insert_desc y l) = S (length l).
Proof.
  induction l as [|z l IH]; cbn [insert_desc]; [reflexivity|].
  destruct (Py.gt z.2 y.2); cbn [length]; [rewrite IH|]; reflexivity.
Qed.

Lemma length_sort_desc l : length (sort_desc l) = length l.
Proof.
  induction l as [|y l IH]; cbn [sort_desc]; [reflexivity|].
  rewrite length_insert_desc, IH. reflexivity.
Qed.

Lemma length_score_memories cfg candidates :
  length (score_memories cfg candidates) = length candidates.
Proof. unfold score_memories. by rewrite length_sort_desc, length_map. Qed.

(** What [score_memories] returns: every pair is a candidate of the batch
    with its score written into it. *)
Lemma In_score_memories cfg candidates scored score :
  In (scored, score) (score_memories cfg candidates) ->
  exists candidate, In candidate candidates
    /\ score = _calculate_salience_score cfg candidate
    /\ scored = set_salience_score candidate score.
Proof.
  unfold score_memories. rewrite In_sort_desc, in_map_iff.
  intros (candidate & Heq & Hin). exists candidate.
  injection Heq as Hc Hs. subst score. split; [exact Hin|]. split; [reflexivity|].
  symmetry. exact Hc.
Qed.

Lemma insert_desc_sorted x l :
  StronglySorted (fun a b => b.2 <= a.2) l ->
  StronglySorted (fun a b => b.2 <= a.2) (insert_desc x l).
Proof.
  induction 1 as [|y l Hl IH Hy]; cbn [insert_desc].
  - repeat constructor.
  - destruct (Py.gt y.2 x.2) eqn:Hgt.
    + constructor; [exact IH|].
      apply Forall_forall. intros z Hz.
      apply list_elem_of_In, In_insert_desc in Hz as [<-|Hz].
      * unfold Py.gt in Hgt. apply negb_true_iff in Hgt.
        apply Qlt_le_weak, Qnot_le_lt. intros Hle.
        apply Qle_bool_iff in Hle. congruence.
      * apply (proj1 (Forall_forall _ _) Hy). by apply list_elem_of_In.
    + assert (Hyx : y.2 <= x.2).
      { unfold Py.gt in Hgt. apply negb_false_iff in Hgt. by apply Qle_bool_iff. }
      constructor; [by constructor|].
      constructor; [exact Hyx|].
      apply Forall_forall. intros z Hz.
      apply Qle_trans with (y := y.2); [|exact Hyx].
      by apply (proj1 (Forall_forall _ _) Hy).
Qed.

Lemma sort_desc_sorted l : StronglySorted (fun a b => b.2 <= a.2) (sort_desc l).
Proof.
  induction l as [|x l IH]; cbn [sort_desc]; [constructor|].
  by apply insert_desc_sorted.
Qed.

(** The Scorer returns the candidates by decreasing score, which is the
    salience it wrote into them. *)
Lemma score_memories_by_decreasing_salience cfg candidates :
  by_decreasing_salience (map fst (score_memories cfg candidates)).
Proof.
  assert (Hsal : forall x, In x (score_memories cfg candidates) ->
                   salience_score x.1 = x.2).
  { intros [c s] Hin. apply In_score_memories in Hin as (c0 & _ & _ & ->).
    reflexivity. }
  assert (Hsorted : StronglySorted (fun a b => b.2 <= a.2)
                      (score_memories cfg candidates))
    by apply sort_desc_sorted.
  revert Hsal Hsorted. generalize (score_memories cfg candidates) as l.
  unfold by_decreasing_salience.
  induction l as [|x l IH]; intros Hsal Hsorted; cbn [map]; [constructor|].
  apply StronglySorted_inv in Hsorted as [Hl Hx].
  constructor; [apply IH; [intros y Hy; apply Hsal; by right | exact Hl]|].
  apply Forall_forall. intros c Hc.
  apply list_elem_of_In, in_map_iff in Hc as (y & <- & Hy).
  rewrite (Hsal x (or_introl eq_refl)), (Hsal y (or_intror Hy)).
  apply (proj1 (Forall_forall _ _) Hx). by apply list_elem_of_In.
Qed.



End ScorerSpec.

(** ** The Deduper *)

Module DeduperSpec.

Import MemoryDeduper Terms Samples.

(** The list returned beside the decisions is the one the first pass
    left, whatever the second pass merged. *)
Lemma deduplicate_memories_residual cfg candidates stored_memories decisions remaining :
  deduplicate_memories cfg candidates stored_memories = inr (decisions, remaining) ->
  exists decisions1,
    _deduplicate_against_stored cfg candidates stored_memories
    = inr (decisions1, remaining).
Proof.
  unfold deduplicate_memories.
  destruct (_deduplicate_against_stored cfg candidates stored_memories)
    as [e|[decisions1 remaining1]]; [discriminate|].
  intros H. injection H as _ <-. by exists decisions1.
Qed.

Section WithinBatch.
Variable cfg : Config.t.

Lemma drop_cons_lookup (l : list CandidateMemory) j c rest :
  drop j l = c :: rest -> l !! j = Some c /\ drop (S j) l = rest.
Proof.
  intros H. assert (Hc : l !! j = Some c).
  { rewrite <- (Nat.add_0_r j), <- lookup_drop, H. reflexivity. }
  split; [exact Hc|]. rewrite (drop_S _ _ _ Hc) in H. by injection H.
Qed.

(** Every merge of the inner loop records a pair as [merge_of_pair] says. *)
Lemma inner_loop_pairs (l : list CandidateMemory) i candidate1 :
  l !! i = Some candidate1 ->
  forall rest j processed events processed',
    (i < j)%nat -> drop j l = rest ->
    inner_loop cfg i candidate1 j rest processed = (events, processed') ->
    forall e, e ∈ events -> merge_of_pair cfg l e.
Proof.
  intros Hi. induction rest as [|candidate2 rest IH];
    intros j processed events processed' Hij Hdrop Hloop e He.
  - injection Hloop as <- _. by apply elem_of_nil in He.
  - apply drop_cons_lookup in Hdrop as [Hj Hdrop]. cbn [inner_loop] in Hloop.
    destruct (bool_decide (j ∈ processed)).
    { apply (IH (S j) processed events processed'); auto with lia. }
    destruct (Py.ge (_calculate_text_similarity (content candidate1) (content candidate2))
                (similarity_threshold cfg)) eqn:Hsim.
    2:{ apply (IH (S j) processed events processed'); auto with lia. }
    destruct (Py.ge (salience_score candidate1) (salience_score candidate2)) eqn:Hsal;
      match type of Hloop with
      | context [inner_loop cfg i candidate1 (S j) rest ?p] =>
          destruct (inner_loop cfg i candidate1 (S j) rest p)
            as [events1 processed1] eqn:Hrest
      end;
      injection Hloop as <- <-;
      (apply elem_of_cons in He as [->|He];
       [|eapply (IH (S j) _ events1 processed1);
          [lia | exact Hdrop | exact Hrest | exact He]]).
    + exists candidate1, candidate2. cbn.
      apply ge_spec in Hsim. apply ge_spec in Hsal.
      repeat split; auto with lia.
    + exists candidate2, candidate1. cbn.
      apply ge_spec in Hsim. apply ge_false in Hsal.
      rewrite SimilaritySpec.similarity_comm.
      repeat split; auto with lia.
      * by apply Qlt_le_weak.
      * intros Heq. rewrite Heq in Hsal. by apply Qlt_irrefl in Hsal.
Qed.

(** The part of the within-batch rule that holds for every batch: each
    merge decision is for a pair at or above the threshold, keeps the
    candidate with the higher salience, the earlier one on a tie, and
    refers to the id of the kept candidate. *)
Lemma merge_events_pairs (l : list CandidateMemory) (e : MergeEvent) :
  e ∈ merge_events cfg l -> merge_of_pair cfg l e.
Proof.
  unfold merge_events.
  assert (H : forall rest i processed, drop i l = rest ->
            e ∈ outer_loop cfg i rest processed -> merge_of_pair cfg l e).
  { induction rest as [|candidate1 rest IH]; intros i processed Hdrop He.
    - by apply elem_of_nil in He.
    - apply drop_cons_lookup in Hdrop as [Hi Hdrop]. cbn [outer_loop] in He.
      destruct (bool_decide (i ∈ processed)); [by apply (IH (S i) processed)|].
      destruct (inner_loop cfg i candidate1 (S i) rest processed)
        as [events processed'] eqn:Hinner.
      apply elem_of_app in He as [He|He].
      + apply (inner_loop_pairs l i candidate1 Hi rest (S i) processed
                 events processed'); auto with lia.
      + by apply (IH (S i) processed'). }
  apply (H l 0%nat ∅). apply drop_0.
Qed.

Lemma decreasing_lookup (l : list CandidateMemory) :
  by_decreasing_salience l ->
  forall i j ci cj, (i <= j)%nat -> l !! i = Some ci -> l !! j = Some cj ->
    salience_score cj <= salience_score ci.
Proof.
  induction 1 as [|c l Hl IH Hc]; intros i j ci cj Hij Hi Hj.
  - destruct i; discriminate.
  - destruct i as [|i], j as [|j]; cbn in Hi, Hj; try lia.
    + injection Hi as <-. injection Hj as <-. apply Qle_refl.
    + injection Hi as <-. apply (proj1 (Forall_forall _ _) Hc).
      by eapply list_elem_of_lookup_2.
    + apply (IH i j); auto with lia.
Qed.

(** The first pass leaves the candidates it does not merge in their
    order. *)
Lemma against_stored_keeps_order stored_memories candidates :
  by_decreasing_salience candidates ->
  forall decisions remaining,
    _deduplicate_against_stored cfg candidates stored_memories
    = inr (decisions, remaining) ->
    by_decreasing_salience remaining /\ (forall c, c ∈ remaining -> c ∈ candidates).
Proof.
  unfold by_decreasing_salience.
  induction 1 as [|c rest Hrest IH Hc]; intros decisions remaining Hrun;
    cbn [_deduplicate_against_stored] in Hrun.
  - injection Hrun as <- <-. split; [constructor|]. by intros c Hc.
  - destruct (best_stored_match c stored_memories) as [best_match best_similarity].
    destruct (_deduplicate_against_stored cfg rest stored_memories)
      as [e|[decisions' remaining']] eqn:Hrec.
    { destruct (Py.ge best_similarity _); [destruct best_match|]; discriminate. }
    destruct (IH decisions' remaining' eq_refl) as [Hsorted Hsub].
    destruct (Py.ge best_similarity _).
    + destruct best_match; [|discriminate]. injection Hrun as <- <-.
      split; [exact Hsorted|]. intros c' Hc'. right. by apply Hsub.
    + injection Hrun as <- <-. split.
      * constructor; [exact Hsorted|]. apply Forall_forall. intros c' Hc'.
        apply (proj1 (Forall_forall _ _) Hc). by apply Hsub.
      * intros c' Hc'. apply elem_of_cons in Hc' as [->|Hc']; [by left|].
        right. by apply Hsub.
Qed.

(** On candidates by decreasing salience the inner loop always keeps
    [candidate1]: it merges later candidates that were not yet marked,
    each once, and marks them. *)
Lemma inner_loop_sorted (l : list CandidateMemory) i candidate1 :
  by_decreasing_salience l -> l !! i = Some candidate1 ->
  forall rest j processed events processed',
    (i < j)%nat -> drop j l = rest ->
    inner_loop cfg i candidate1 j rest processed = (events, processed') ->
    (forall e, e ∈ events ->
       keep_idx e = i /\ (j <= merge_idx e)%nat /\ (merge_idx e ∉ processed))
    /\ NoDup (merge_idx <$> events)
    /\ (forall k, k ∈ processed' <-> k ∈ processed \/ k ∈ merge_idx <$> events).
Proof.
  intros Hsorted Hi. induction rest as [|candidate2 rest IH];
    intros j processed events processed' Hij Hdrop Hloop.
  - injection Hloop as <- <-. split; [intros e He; by apply elem_of_nil in He|].
    split; [constructor|]. intros k. rewrite elem_of_nil. tauto.
  - apply drop_cons_lookup in Hdrop as [Hj Hdrop]. cbn [inner_loop] in Hloop.
    assert (Hstep : forall events processed',
              inner_loop cfg i candidate1 (S j) rest processed = (events, processed') ->
              (forall e, e ∈ events ->
                 keep_idx e = i /\ (j <= merge_idx e)%nat /\ (merge_idx e ∉ processed))
              /\ NoDup (merge_idx <$> events)
              /\ (forall k, k ∈ processed' <-> k ∈ processed \/ k ∈ merge_idx <$> events)).
    { intros evs p' H.
      destruct (IH (S j) processed evs p') as (He & Hnd & Hp); auto with lia.
      split; [|by split]. intros e Hin. destruct (He e Hin) as (? & ? & ?).
      auto with lia. }
    destruct (bool_decide (j ∈ processed)) eqn:Hproc; [by apply Hstep|].
    apply bool_decide_eq_false in Hproc.
    destruct (Py.ge (_calculate_text_similarity (content candidate1) (content candidate2))
                (similarity_threshold cfg)); [|by apply Hstep].
    assert (Hsal : Py.ge (salience_score candidate1) (salience_score candidate2) = true).
    { apply ge_spec. apply (decreasing_lookup l Hsorted i j); auto with lia. }
    rewrite Hsal in Hloop.
    destruct (inner_loop cfg i candidate1 (S j) rest ({[j]} ∪ processed))
      as [events1 processed1] eqn:Hrest.
    injection Hloop as <- <-.
    destruct (IH (S j) ({[j]} ∪ processed) events1 processed1) as (He & Hnd & Hp);
      auto with lia.
    split; [|split].
    + intros e Hin. apply elem_of_cons in Hin as [->|Hin]; [by cbn|].
      destruct (He e Hin) as (? & ? & Hnot). split; [done|]. split; [lia|].
      set_solver.
    + cbn. apply NoDup_cons. split; [|exact Hnd].
      intros Hin. apply list_elem_of_fmap in Hin as (e & Heq & Hin).
      destruct (He e Hin) as (_ & Hle & _). lia.
    + intros k. rewrite Hp. cbn. set_solver.
Qed.

(** The within-batch rule on candidates by decreasing salience, as the
    pipeline passes them: the kept candidate of every merge comes before
    the merged one, no candidate is merged twice, and no candidate marked
    for merge is the kept one of another merge. *)
Lemma merge_events_sorted (l : list CandidateMemory) :
  by_decreasing_salience l ->
  (forall e, e ∈ merge_events cfg l -> (keep_idx e < merge_idx e)%nat)
  /\ NoDup (merge_idx <$> merge_events cfg l)
  /\ (forall e e', e ∈ merge_events cfg l -> e' ∈ merge_events cfg l ->
        keep_idx e <> merge_idx e').
Proof.
  intros Hsorted. unfold merge_events.
  assert (H : forall rest i processed, drop i l = rest ->
            let events := outer_loop cfg i rest processed in
            (forall e, e ∈ events ->
               (i <= keep_idx e)%nat /\ (keep_idx e < merge_idx e)%nat
               /\ (keep_idx e ∉ processed) /\ (merge_idx e ∉ processed))
            /\ NoDup (merge_idx <$> events)
            /\ (forall e e', e ∈ events -> e' ∈ events -> keep_idx e <> merge_idx e')).
  { induction rest as [|candidate1 rest IH]; intros i processed Hdrop; cbn zeta.
    - cbn [outer_loop]. split; [intros e He; by apply elem_of_nil in He|].
      split; [constructor|]. intros e e' He. by apply elem_of_nil in He.
    - apply drop_cons_lookup in Hdrop as [Hi Hdrop]. cbn [outer_loop].
      destruct (bool_decide (i ∈ processed)) eqn:Hproc.
      { destruct (IH (S i) processed Hdrop) as (He & Hnd & Hx).
        split; [|by split]. intros e Hin.
        destruct (He e Hin) as (? & ? & ? & ?). auto with lia. }
      apply bool_decide_eq_false in Hproc.
      destruct (inner_loop cfg i candidate1 (S i) rest processed)
        as [events1 processed1] eqn:Hinner.
      destruct (inner_loop_sorted l i candidate1 Hsorted Hi rest (S i) processed
                  events1 processed1) as (He1 & Hnd1 & Hp1); auto with lia.
      destruct (IH (S i) processed1 Hdrop) as (He2 & Hnd2 & Hx2).
      split; [|split].
      + intros e Hin. apply elem_of_app in Hin as [Hin|Hin].
        * destruct (He1 e Hin) as (-> & ? & ?). auto with lia.
        * destruct (He2 e Hin) as (? & ? & Hk & Hm).
          split; [lia|]. split; [lia|].
          split; intros Hc; [apply Hk|apply Hm]; apply Hp1; by left.
      + rewrite fmap_app. apply NoDup_app. split; [exact Hnd1|]. split; [|exact Hnd2].
        intros k Hk1 Hk2. apply list_elem_of_fmap in Hk2 as (e & -> & Hin).
        destruct (He2 e Hin) as (_ & _ & _ & Hm). apply Hm, Hp1. by right.
      + intros e e' Hin Hin'.
        apply elem_of_app in Hin as [Hin|Hin];
          apply elem_of_app in Hin' as [Hin'|Hin'].
        * destruct (He1 e Hin) as (-> & _). destruct (He1 e' Hin') as (_ & ? & _). lia.
        * destruct (He1 e Hin) as (-> & _).
          destruct (He2 e' Hin') as (? & ? & _). lia.
        * destruct (He2 e Hin) as (_ & _ & Hk & _). intros Heq. apply Hk, Hp1.
          right. apply list_elem_of_fmap. exists e'. by split.
        * by apply Hx2. }
  destruct (H l 0%nat ∅ (drop_0 l)) as (He & Hnd & Hx).
  split; [|by split]. intros e Hin. by destruct (He e Hin) as (_ & ? & _).
Qed.

End WithinBatch.

(** In the pipeline the pass runs on what the first pass left of the
    Scorer's output, which is by decreasing salience: there every merge
    keeps the earlier candidate, no candidate is merged twice, and a merged
    candidate is in no other merge. *)
Lemma within_batch_in_pipeline cfg extracted stored_memories decisions remaining :
  _deduplicate_against_stored cfg
    (map fst (MemoryScorer.score_memories cfg extracted)) stored_memories
  = inr (decisions, remaining) ->
  (forall e, e ∈ merge_events cfg remaining ->
     merge_of_pair cfg remaining e /\ (keep_idx e < merge_idx e)%nat)
  /\ NoDup (merge_idx <$> merge_events cfg remaining)
  /\ (forall e e', e ∈ merge_events cfg remaining ->
        e' ∈ merge_events cfg remaining -> keep_idx e <> merge_idx e').
Proof.
  intros Hpass1.
  destruct (against_stored_keeps_order cfg stored_memories _
              (ScorerSpec.score_memories_by_decreasing_salience cfg extracted)
              decisions remaining Hpass1) as [Hsorted _].
  destruct (merge_events_sorted cfg remaining Hsorted) as (Hlt & Hnd & Hx).
  split; [|by split]. intros e He. split; [by apply merge_events_pairs | by apply Hlt].
Qed.

(** C2, on the code: two candidates with the same content and an empty
    stored window.  The second pass merges the candidate at index 1 into
    the one at index 0 and emits the merge decision, and the list returned
    as residual still holds both candidates. *)
Theorem residual_keeps_candidate_merged_within_batch :
  exists decision : MemoryDecision,
    deduplicate_memories Config.default [hiking_love; hiking_enjoy] []
    = inr ([decision], [hiking_love; hiking_enjoy])
    /\ action decision = merge
    /\ map (fun e => (merge_idx e, keep_idx e))
           (merge_events Config.default [hiking_love; hiking_enjoy])
       = [(1%nat, 0%nat)].
Proof.
  eexists. split; [vm_compute; reflexivity|].
  split; vm_compute; reflexivity.
Qed.

(** C3, on the code: three candidates with the same content, the first
    with the lowest salience.  The first candidate loses against the
    second and is marked; the inner loop still goes on with it as
    [candidate1], compares it with the third and merges it a second time,
    into the third, which is itself merged into the second afterwards. *)
Theorem merged_candidate_is_compared_again :
  map (fun e => (merge_idx e, keep_idx e))
      (merge_events Config.default [hiking_like; hiking_love; hiking_enjoy])
  = [(0%nat, 1%nat); (0%nat, 2%nat); (2%nat, 1%nat)]
  /\ map action
       (_deduplicate_candidates Config.default [hiking_like; hiking_love; hiking_enjoy])
     = [merge; merge; merge].
Proof. split; vm_compute; reflexivity. Qed.

End DeduperSpec.

(** ** The storage operations, one by one *)

Module StorageSpec.

Import MemoryStorage Terms.

Ltac run_monad :=
  unfold mbind, M_bind, mret, M_ret, bind, ret, raise, try_except in *.

Lemma same_data_refl w : same_data w w.
Proof. by repeat split. Qed.

Lemma same_data_trans w1 w2 w3 :
  same_data w1 w2 -> same_data w2 w3 -> same_data w1 w3.
Proof.
  intros (?&?&?&?&?) (?&?&?&?&?). repeat split; congruence.
Qed.

Lemma same_data_set_faults w f : same_data w (set_faults w f).
Proof. by repeat split. Qed.

Lemma db_call_inv w r w' :
  db_call w = (r, w') ->
  same_data w w' /\ (quiet w -> r = inr tt /\ quiet w').
Proof.
  unfold db_call, quiet. destruct (faults w) as [|[e|] f] eqn:Hf;
    intros H; injection H as <- <-;
    (split; [first [apply same_data_refl | apply same_data_set_faults]|]);
    intros Hq; try discriminate; by split.
Qed.


(** The audit log never raises, and touches neither collection. *)
Lemma log_audit_inv action memory_id decision candidate w r w' :
  _log_audit action memory_id decision candidate w = (r, w') ->
  r = inr tt
  /\ stored_memories w' = stored_memories w
  /\ buffered_memories w' = buffered_memories w
  /\ next_oid w' = next_oid w
  /\ (wrote w w' [] \/ wrote w w' [InsertAudit action])
  /\ (quiet w -> quiet w').
Proof.
  unfold _log_audit, insert_audit, wrote. run_monad.
  destruct (db_call w) as [[e|[]] w1] eqn:Hcall;
    apply db_call_inv in Hcall as [(Hs & Hb & Ha & Hn & Hj) Hq];
    intros H; injection H as <- <-; cbn.
  - repeat split; try congruence.
    + left. by rewrite Hj, app_nil_r.
    + intros Hw. by destruct (Hq Hw).
  - repeat split; try congruence.
    + right. by rewrite Hj.
    + intros Hw. by destruct (Hq Hw).
Qed.

(** [store_memory] either raises and leaves the data as it was, or
    inserts the document under the next key and may log it. *)
Lemma store_memory_inv candidate decision content w r w' :
  store_memory candidate decision content w = (r, w') ->
  ((exists e, r = inl e) /\ same_data w w' \/
   r = inr (oid_str (next_oid w))
   /\ stored_memories w'
      = (next_oid w, stored_doc candidate decision content) :: stored_memories w
   /\ buffered_memories w' = buffered_memories w
   /\ (wrote w w' [InsertStored (next_oid w)]
       \/ wrote w w' [InsertStored (next_oid w); InsertAudit "store"]))
  /\ (quiet w -> (exists memory_id, r = inr memory_id) /\ quiet w').
Proof.
  unfold store_memory, insert_stored. run_monad.
  destruct (db_call w) as [[e|[]] w1] eqn:Hcall;
    apply db_call_inv in Hcall as [(Hs & Hb & Ha & Hn & Hj) Hq].
  - intros H. injection H as <- <-. split.
    + left. split; [by eexists | by repeat split].
    + intros Hw. by destruct (Hq Hw).
  - match goal with
    | |- context [_log_audit ?a ?i ?d ?c ?w0] =>
        destruct (_log_audit a i d c w0) as [r2 w2] eqn:Hlog
    end.
    apply log_audit_inv in Hlog as (-> & Hs2 & Hb2 & Hn2 & Hj2 & Hq2).
    cbn in Hs2, Hb2, Hn2, Hj2, Hq2. unfold wrote in *. cbn in Hj2.
    rewrite Hn, Hs in Hs2. rewrite Hb in Hb2. rewrite Hj, Hn in Hj2.
    intros H. injection H as <- <-. split.
    + right. rewrite Hn. split; [reflexivity|].
      split; [exact Hs2|]. split; [exact Hb2|].
      destruct Hj2 as [Hj2|Hj2]; [left|right]; rewrite Hj2, <- ?app_assoc;
        try rewrite app_nil_r; reflexivity.
    + intros Hw. destruct (Hq Hw) as [_ Hw1]. split; [by eexists|].
      apply Hq2. exact Hw1.
Qed.

(** [find_one] reads; it may raise. *)
Lemma find_one_buffered_inv object_id w r w' :
  find_one_buffered object_id w = (r, w') ->
  same_data w w'
  /\ (r = inr (buffered_memories w !! object_id) \/ exists e, r = inl e)
  /\ (quiet w -> r = inr (buffered_memories w !! object_id) /\ quiet w').
Proof.
  unfold find_one_buffered. run_monad.
  destruct (db_call w) as [[e|[]] w1] eqn:Hcall;
    apply db_call_inv in Hcall as [Hsame Hq];
    intros H; injection H as <- <-.
  - split; [exact Hsame|]. split; [right; by eexists|].
    intros Hw. by destruct (Hq Hw).
  - destruct Hsame as (Hs & Hb & Ha & Hn & Hj).
    split; [by repeat split|]. rewrite Hb. split; [by left|].
    intros Hw. by destruct (Hq Hw).
Qed.

(** [delete_one] either raises and leaves the data as it was, or leaves
    the collection without the key. *)
Lemma delete_one_buffered_inv object_id w r w' :
  delete_one_buffered object_id w = (r, w') ->
  ((exists e, r = inl e) /\ same_data w w' \/
   r = inr tt
   /\ stored_memories w' = stored_memories w
   /\ buffered_memories w' = delete object_id (buffered_memories w)
   /\ next_oid w' = next_oid w
   /\ wrote w w' (match buffered_memories w !! object_id with
                  | Some _ => [DeleteBuffered object_id]
                  | None => []
                  end))
  /\ (quiet w -> r = inr tt /\ quiet w').
Proof.
  unfold delete_one_buffered, wrote. run_monad.
  destruct (db_call w) as [[e|[]] w1] eqn:Hcall;
    apply db_call_inv in Hcall as [(Hs & Hb & Ha & Hn & Hj) Hq].
  - intros H. injection H as <- <-. split.
    + left. split; [by eexists | by repeat split].
    + intros Hw. by destruct (Hq Hw).
  - rewrite Hb.
    destruct (buffered_memories w !! object_id) eqn:Hlook;
      intros H; injection H as <- <-; cbn; split.
    + right. repeat split; try congruence.
    + intros Hw. by destruct (Hq Hw).
    + right. split; [reflexivity|]. split; [exact Hs|].
      split; [rewrite Hb; symmetry; by apply delete_id|].
      split; [exact Hn|]. by rewrite Hj, app_nil_r.
    + intros Hw. by destruct (Hq Hw).
Qed.

(** [buffer_memory] either raises and leaves the data as it was, or
    inserts the record under the next key, which was free, and may log
    it. *)
Lemma buffer_memory_inv candidate buffer_reason buffer_score w r w' :
  buffer_memory candidate buffer_reason buffer_score w = (r, w') ->
  ((exists e, r = inl e) /\ same_data w w' \/
   r = inr (oid_str (next_oid w))
   /\ buffered_memories w !! next_oid w = None
   /\ buffered_memories w'
      = <[next_oid w := {| bm_id := None; bm_candidate := candidate;
                           buffer_reason := buffer_reason;
                           buffer_score := buffer_score |}]>
          (buffered_memories w)
   /\ stored_memories w' = stored_memories w
   /\ (wrote w w' [InsertBuffered (next_oid w)]
       \/ wrote w w' [InsertBuffered (next_oid w); InsertAudit "buffer"]))
  /\ (quiet w -> buffered_memories w !! next_oid w = None ->
      (exists memory_id, r = inr memory_id) /\ quiet w').
Proof.
  unfold buffer_memory, insert_buffered. run_monad.
  destruct (db_call w) as [[e|[]] w1] eqn:Hcall;
    apply db_call_inv in Hcall as [(Hs & Hb & Ha & Hn & Hj) Hq].
  - intros H. injection H as <- <-. split.
    + left. split; [by eexists | by repeat split].
    + intros Hw. by destruct (Hq Hw).
  - rewrite Hb, Hn.
    destruct (buffered_memories w !! next_oid w) eqn:Hlook.
    + intros H. injection H as <- <-. split.
      * left. split; [by eexists | by repeat split].
      * intros _ Hnone. discriminate.
    + match goal with
      | |- context [_log_audit ?a ?i ?d ?c ?w0] =>
          destruct (_log_audit a i d c w0) as [r2 w2] eqn:Hlog
      end.
      apply log_audit_inv in Hlog as (-> & Hs2 & Hb2 & Hn2 & Hj2 & Hq2).
      cbn in Hs2, Hb2, Hn2, Hj2, Hq2. unfold wrote in *. cbn in Hj2.
      rewrite Hs in Hs2. rewrite Hj in Hj2.
      intros H. injection H as <- <-. split.
      * right. split; [reflexivity|]. split; [reflexivity|].
        split; [exact Hb2|]. split; [exact Hs2|].
        destruct Hj2 as [Hj2|Hj2]; [left|right]; rewrite Hj2, <- ?app_assoc;
          try rewrite app_nil_r; reflexivity.
      * intros Hw _. destruct (Hq Hw) as [_ Hw1]. split; [by eexists|].
        apply Hq2. exact Hw1.
Qed.

(** What [approve_buffered_memory] can do: nothing at all, with [False];
    or store the memory and stop there, with [False]; or store it, delete
    the buffered record and answer [True]. *)
Lemma approve_inv memory_id admin_notes w r w' :
  approve_buffered_memory memory_id admin_notes w = (r, w') ->
  (r = inr false /\ same_data w w') \/
  exists object_id doc logged,
    ObjectId memory_id = Some object_id
    /\ buffered_memories w !! object_id = Some doc
    /\ validate (bm_candidate doc) = true
    /\ stored_memories w'
       = (next_oid w,
          stored_doc (bm_candidate doc) (approval admin_notes)
                     (content (bm_candidate doc))) :: stored_memories w
    /\ (logged = [] \/ logged = [InsertAudit "store"])
    /\ (r = inr false /\ buffered_memories w' = buffered_memories w
          /\ wrote w w' (InsertStored (next_oid w) :: logged)
        \/ r = inr true
           /\ buffered_memories w' = delete object_id (buffered_memories w)
           /\ exists tail, (tail = [] \/ tail = [InsertAudit "approve"])
                /\ wrote w w' (InsertStored (next_oid w) :: logged
                               ++ DeleteBuffered object_id :: tail)).
Proof.
  unfold approve_buffered_memory.
  destruct (ObjectId memory_id) as [object_id|] eqn:Hoid.
  2:{ run_monad. intros H. injection H as <- <-. left. split; [reflexivity|apply same_data_refl]. }
  run_monad.
  destruct (find_one_buffered object_id w) as [rf w1] eqn:Hfind.
  apply find_one_buffered_inv in Hfind as (Hsame1 & Hrf & _).
  destruct Hrf as [->|[e ->]].
  2:{ intros H. injection H as <- <-. by left. }
  destruct (buffered_memories w !! object_id) as [doc|] eqn:Hdoc.
  2:{ intros H. injection H as <- <-. by left. }
  destruct (validate (bm_candidate doc)) eqn:Hvalid; cbn [negb].
  2:{ intros H. injection H as <- <-. by left. }
  fold (approval admin_notes).
  destruct (store_memory (bm_candidate doc) (approval admin_notes)
              (content (bm_candidate doc)) w1) as [rs w2] eqn:Hstore.
  apply store_memory_inv in Hstore as [Hstore _].
  destruct Hsame1 as (Hs1 & Hb1 & Ha1 & Hn1 & Hj1).
  destruct Hstore as [[[e ->] Hsame2]|(-> & Hs2 & Hb2 & Hj2)].
  { intros H. injection H as <- <-. left. split; [reflexivity|].
    apply (same_data_trans w w1 w2); [by repeat split | exact Hsame2]. }
  rewrite Hn1, Hs1 in Hs2. rewrite Hb1 in Hb2. unfold wrote in Hj2.
  rewrite Hn1, Hj1 in Hj2.
  assert (Hlogged : exists logged, (logged = [] \/ logged = [InsertAudit "store"])
                      /\ wrote w w2 (InsertStored (next_oid w) :: logged)).
  { destruct Hj2 as [Hj2|Hj2]; eexists; (split; [|exact Hj2]); auto. }
  destruct Hlogged as (logged & Hlogged & Hw2). clear Hj2.
  destruct (delete_one_buffered object_id w2) as [rd w3] eqn:Hdel.
  apply delete_one_buffered_inv in Hdel as [Hdel _].
  destruct Hdel as [[[e ->] Hsame3]|(-> & Hs3 & Hb3 & Hn3 & Hj3)].
  { intros H. injection H as <- <-. right.
    destruct Hsame3 as (Hs3 & Hb3 & Ha3 & Hn3 & Hj3).
    exists object_id, doc, logged.
    split; [reflexivity|]. split; [exact Hdoc|]. split; [exact Hvalid|].
    split; [congruence|]. split; [exact Hlogged|]. left.
    split; [reflexivity|]. split; [congruence|].
    unfold wrote in *. congruence. }
  rewrite Hb2, Hdoc in Hj3. rewrite Hb2 in Hb3. rewrite Hs2 in Hs3.
  match goal with
  | |- context [_log_audit ?a ?i ?d ?c ?w0] =>
      destruct (_log_audit a i d c w0) as [r4 w4] eqn:Hlog
  end.
  apply log_audit_inv in Hlog as (-> & Hs4 & Hb4 & Hn4 & Hj4 & _).
  intros H. injection H as <- <-. right.
  exists object_id, doc, logged.
  split; [reflexivity|]. split; [exact Hdoc|]. split; [exact Hvalid|].
  split; [congruence|]. split; [exact Hlogged|]. right.
  split; [reflexivity|]. split; [congruence|].
  unfold wrote in *.
  destruct Hj4 as [Hj4|Hj4]; [exists [] | exists [InsertAudit "approve"]];
    (split; [auto|]); rewrite Hj4, Hj3, Hw2, <- ?app_assoc; cbn;
    rewrite <- ?app_assoc; reflexivity.
Qed.

(** What [reject_buffered_memory] can do: nothing at all, with [False];
    or log the rejection and stop there, with [False]; or log it, delete
    the buffered record and answer [True]. *)
Lemma reject_inv memory_id admin_notes w r w' :
  reject_buffered_memory memory_id admin_notes w = (r, w') ->
  (r = inr false /\ same_data w w') \/
  exists object_id doc logged,
    ObjectId memory_id = Some object_id
    /\ buffered_memories w !! object_id = Some doc
    /\ validate (bm_candidate doc) = true
    /\ stored_memories w' = stored_memories w
    /\ (logged = [] \/ logged = [InsertAudit "reject"])
    /\ (r = inr false /\ buffered_memories w' = buffered_memories w
          /\ wrote w w' logged
        \/ r = inr true
           /\ buffered_memories w' = delete object_id (buffered_memories w)
           /\ wrote w w' (logged ++ [DeleteBuffered object_id])).
Proof.
  unfold reject_buffered_memory.
  destruct (ObjectId memory_id) as [object_id|] eqn:Hoid.
  2:{ run_monad. intros H. injection H as <- <-. left. split; [reflexivity|apply same_data_refl]. }
  run_monad.
  destruct (find_one_buffered object_id w) as [rf w1] eqn:Hfind.
  apply find_one_buffered_inv in Hfind as (Hsame1 & Hrf & _).
  destruct Hrf as [->|[e ->]].
  2:{ intros H. injection H as <- <-. by left. }
  destruct (buffered_memories w !! object_id) as [doc|] eqn:Hdoc.
  2:{ intros H. injection H as <- <-. by left. }
  destruct (validate (bm_candidate doc)) eqn:Hvalid; cbn [negb].
  2:{ intros H. injection H as <- <-. by left. }
  destruct Hsame1 as (Hs1 & Hb1 & Ha1 & Hn1 & Hj1).
  match goal with
  | |- context [_log_audit ?a ?i ?d ?c ?w0] =>
      destruct (_log_audit a i d c w0) as [r2 w2] eqn:Hlog
  end.
  apply log_audit_inv in Hlog as (-> & Hs2 & Hb2 & Hn2 & Hj2 & _).
  rewrite Hs1 in Hs2. rewrite Hb1 in Hb2. unfold wrote in Hj2. rewrite Hj1 in Hj2.
  assert (Hlogged : exists logged, (logged = [] \/ logged = [InsertAudit "reject"])
                      /\ wrote w w2 logged).
  { destruct Hj2 as [Hj2|Hj2]; eexists; (split; [|exact Hj2]); auto. }
  destruct Hlogged as (logged & Hlogged & Hw2). clear Hj2.
  destruct (delete_one_buffered object_id w2) as [rd w3] eqn:Hdel.
  apply delete_one_buffered_inv in Hdel as [Hdel _].
  destruct Hdel as [[[e ->] Hsame3]|(-> & Hs3 & Hb3 & Hn3 & Hj3)];
    intros H; injection H as <- <-; right; exists object_id, doc, logged;
    (split; [reflexivity|]); (split; [exact Hdoc|]); (split; [exact Hvalid|]).
  - destruct Hsame3 as (Hs3 & Hb3 & Ha3 & Hn3 & Hj3).
    split; [congruence|]. split; [exact Hlogged|]. left.
    split; [reflexivity|]. split; [congruence|]. unfold wrote in *. congruence.
  - rewrite Hb2, Hdoc in Hj3. rewrite Hb2 in Hb3.
    split; [congruence|]. split; [exact Hlogged|]. right.
    split; [reflexivity|]. split; [exact Hb3|].
    unfold wrote in *. rewrite Hj3, Hw2, <- ?app_assoc. reflexivity.
Qed.

(** Either review operation ends with [True] or [False], never with an
    exception; after [True] the record is gone. *)
Lemma resolve_inv review memory_id admin_notes w r w' :
  resolve_buffered review memory_id admin_notes w = (r, w') ->
  (r = inr false \/
   r = inr true /\ exists object_id,
     ObjectId memory_id = Some object_id
     /\ is_Some (buffered_memories w !! object_id)
     /\ buffered_memories w' !! object_id = None).
Proof.
  destruct review; cbn [resolve_buffered]; intros H.
  - apply approve_inv in H as [[-> _]|(oid & doc & logged & Hoid & Hdoc & _ & _ & _ & H)];
      [by left|].
    destruct H as [(-> & _)|(-> & Hb & _)]; [by left|right].
    split; [reflexivity|]. exists oid. split; [exact Hoid|].
    split; [by eexists|]. rewrite Hb. apply lookup_delete_eq.
  - apply reject_inv in H as [[-> _]|(oid & doc & logged & Hoid & Hdoc & _ & _ & _ & H)];
      [by left|].
    destruct H as [(-> & _)|(-> & Hb & _)]; [by left|right].
    split; [reflexivity|]. exists oid. split; [exact Hoid|].
    split; [by eexists|]. rewrite Hb. apply lookup_delete_eq.
Qed.



End StorageSpec.

(** ** The review of buffered memories *)

Module ReviewSpec.

Import MemoryStorage Terms Samples StorageSpec.

(** A deletion in a run of writes that is empty or starts with the insert
    of a stored memory comes after that insert. *)
Lemma delete_after_insert (writes before after : list DbWrite) (object_id : N) :
  (writes = [] \/ exists k rest, writes = InsertStored k :: rest) ->
  writes = before ++ DeleteBuffered object_id :: after ->
  exists k, In (InsertStored k) before.
Proof.
  intros [->|(k & rest & ->)] Heq.
  - destruct before; discriminate.
  - destruct before as [|b before']; [discriminate|].
    injection Heq as <- _. exists k. by left.
Qed.

(** C5: in an approval, the buffered record is deleted only after the
    memory has been inserted into the stored collection: every deletion
    written by the operation comes after the insert, and a record that is
    gone afterwards has its memory stored.  When the insert fails, the
    operation answers [False] and the collections, the buffered record
    among them, are as they were. *)
Theorem approve_stores_before_deleting
    (memory_id : string) (admin_notes : option string)
    (w w' : World) (r : string + bool) :
  approve_buffered_memory memory_id admin_notes w = (r, w') ->
  (forall before after object_id,
     journal w' = journal w ++ before ++ DeleteBuffered object_id :: after ->
     exists k, In (InsertStored k) before)
  /\ (forall object_id doc,
        buffered_memories w !! object_id = Some doc ->
        buffered_memories w' !! object_id = None ->
        r = inr true
        /\ exists k, stored_memories w'
             = (k, stored_doc (bm_candidate doc) (approval admin_notes)
                              (content (bm_candidate doc))) :: stored_memories w)
  /\ (forall object_id doc w1 e w2,
        ObjectId memory_id = Some object_id ->
        find_one_buffered object_id w = (inr (Some doc), w1) ->
        validate (bm_candidate doc) = true ->
        store_memory (bm_candidate doc) (approval admin_notes)
                     (content (bm_candidate doc)) w1 = (inl e, w2) ->
        r = inr false /\ same_data w w'
        /\ buffered_memories w' !! object_id = Some doc).
Proof.
  intros Happrove. split; [|split].
  - intros before after object_id Hj.
    apply (delete_after_insert (before ++ DeleteBuffered object_id :: after)
             before after object_id); [|reflexivity].
    apply approve_inv in Happrove
      as [[_ (_ & _ & _ & _ & Hsame)]
         |(oid & doc & logged & _ & _ & _ & _ & _ & Hcases)].
    + left. rewrite <- (app_nil_r (journal w)) in Hsame at 1.
      rewrite Hsame in Hj. by apply app_inv_head in Hj.
    + right. unfold wrote in Hcases.
      destruct Hcases as [(_ & _ & Hw)|(_ & _ & tail & _ & Hw)];
        rewrite Hw in Hj; apply app_inv_head in Hj; rewrite <- Hj; by eauto.
  - intros object_id doc Hbefore Hafter.
    apply approve_inv in Happrove
      as [[_ (_ & Hb & _)]
         |(oid & doc' & logged & _ & Hdoc' & _ & Hstored & _ & Hcases)].
    + rewrite Hb, Hbefore in Hafter. discriminate.
    + destruct Hcases as [(_ & Hb & _)|(-> & Hb & _)].
      * rewrite Hb, Hbefore in Hafter. discriminate.
      * split; [reflexivity|].
        destruct (decide (oid = object_id)) as [->|Hne].
        -- rewrite Hbefore in Hdoc'. injection Hdoc' as <-. by eexists.
        -- rewrite Hb, lookup_delete_ne, Hbefore in Hafter by exact Hne.
           discriminate.
  - intros object_id doc w1 e w2 Hoid Hfind Hvalid Hstore.
    unfold approve_buffered_memory in Happrove. rewrite Hoid in Happrove.
    run_monad. rewrite Hfind, Hvalid in Happrove. cbn [negb] in Happrove.
    fold (approval admin_notes) in Happrove. rewrite Hstore in Happrove.
    injection Happrove as <- <-.
    apply find_one_buffered_inv in Hfind as (Hsame1 & Hr & _).
    apply store_memory_inv in Hstore as [[[_ Hsame2]|[Habs _]] _];
      [|discriminate].
    assert (Hsame : same_data w w2) by (by apply (same_data_trans w w1 w2)).
    split; [reflexivity|]. split; [exact Hsame|].
    destruct Hsame as (_ & -> & _).
    destruct Hr as [Hr|[e' Hr]]; [|discriminate].
    injection Hr as Hr. by symmetry.
Qed.

(** Two runs: the database refuses the insert after the lookup; the
    database answers every call. *)
Lemma approve_stores_before_deleting_witness :
  (let w := review_world [None; Some "connection refused"] in
   let w' := review_world [] in
   approve_buffered_memory review_id (Some "ok") w = (inr false, w')
   /\ same_data w w'
   /\ buffered_memories w' !! 7%N = Some buffered_hiking)
  /\ (exists w',
        approve_buffered_memory review_id (Some "ok") (review_world [])
        = (inr true, w')
        /\ journal w' = [InsertStored 8; InsertAudit "store";
                         DeleteBuffered 7; InsertAudit "approve"]
        /\ (exists k, In (InsertStored k) [InsertStored 8; InsertAudit "store"])
        /\ exists k, stored_memories w'
             = [(k, stored_doc (bm_candidate buffered_hiking) (approval (Some "ok"))
                               "hiking on weekends")]).
Proof.
  split.
  - assert (H : approve_buffered_memory review_id (Some "ok")
                  (review_world [None; Some "connection refused"])
                = (inr false, review_world []))
      by (vm_compute; reflexivity).
    split; [exact H|].
    destruct (approve_stores_before_deleting _ _ _ _ _ H) as (_ & _ & Hfail).
    apply (Hfail 7%N buffered_hiking (review_world [Some "connection refused"])
             "connection refused" (review_world []));
      vm_compute; reflexivity.
  - destruct (approve_buffered_memory review_id (Some "ok") (review_world []))
      as [r w'] eqn:H.
    assert (Hj : journal w' = [InsertStored 8; InsertAudit "store";
                               DeleteBuffered 7; InsertAudit "approve"])
      by (change (journal w') with (journal (r, w').2); rewrite <- H;
          vm_compute; reflexivity).
    assert (Hgone : buffered_memories w' !! 7%N = None)
      by (change (buffered_memories w') with (buffered_memories (r, w').2);
          rewrite <- H; vm_compute; reflexivity).
    destruct (approve_stores_before_deleting _ _ _ _ _ H) as (Horder & Hstored & _).
    destruct (Hstored 7%N buffered_hiking) as [-> Hdoc];
      [vm_compute; reflexivity | exact Hgone |].
    exists w'. split; [reflexivity|]. split; [exact Hj|]. split.
    + apply (Horder [InsertStored 8; InsertAudit "store"]
               [InsertAudit "approve"] 7%N).
      rewrite Hj. reflexivity.
    + exact Hdoc.
Defined.

(** C6, on the code: the approval request carries a modified content and
    the endpoint passes on the notes alone; the memory is stored with the
    content of the buffered candidate. *)
Theorem approve_drops_modified_content :
  let request :=
    {| rq_memory_id := review_id; rq_action := "approve";
       notes := Some "reworded"; modified_content := Some "I enjoy long hikes." |} in
  let '(response, w') :=
    Main.approve_buffered_memory review_id request (review_world []) in
  response = Main.Ok200 "Memory approved successfully" review_id
  /\ map (fun doc => final_content doc.2) (stored_memories w')
     = ["hiking on weekends"]
  /\ buffered_memories w' !! 7%N = None.
Proof. vm_compute. repeat split; reflexivity. Qed.



(** At the endpoints a review that answers [False] is a 500: the 404
    never leaves the handler. *)
Example review_of_unknown_id_is_500 :
  let request :=
    {| rq_memory_id := "0000000000000000000000ff"; rq_action := "reject";
       notes := None; modified_content := None |} in
  fst (Main.reject_buffered_memory "0000000000000000000000ff" request (review_world []))
  = Main.HttpError 500
  /\ fst (Main.approve_buffered_memory "0000000000000000000000ff" request (review_world []))
     = Main.HttpError 500.
Proof. split; vm_compute; reflexivity. Qed.

End ReviewSpec.

(** ** The batch loop of the service *)

Module PipelineSpec.

Import MemoryStorage DeciderService Terms Samples StorageSpec.

Local Open Scope nat_scope.

Lemma decision_at_lookup initial t i decision w :
  all_decisions t !! i = Some decision ->
  decision_at initial t i w = (inr decision, w).
Proof.
  intros H. unfold decision_at.
  rewrite (proj2 (Nat.ltb_lt _ _) (lookup_lt_Some _ _ _ H)), H. reflexivity.
Qed.

(** One turn of the loop, for a decision that is not [keep]. *)
Lemma process_candidate_buffer initial i candidate score decision t w :
  all_decisions t !! i = Some decision ->
  action decision = buffer ->
  process_candidate initial i candidate score t w
  = match buffer_memory candidate (reason decision) score w with
    | (inr _, w') => (inr (incr_buffered t), w')
    | (inl _, w') => (inr (incr_rejected t), w')
    end.
Proof.
  intros Hd Ha. unfold process_candidate. run_monad.
  rewrite (decision_at_lookup _ _ _ _ _ Hd).
  unfold keep_step, buffer_step. rewrite Ha. run_monad. rewrite Ha. run_monad.
  by destruct (buffer_memory candidate (reason decision) score w) as [[?|?] ?].
Qed.

Lemma process_candidate_reject initial i candidate score decision t w :
  all_decisions t !! i = Some decision ->
  action decision = reject ->
  process_candidate initial i candidate score t w = (inr (incr_rejected t), w).
Proof.
  intros Hd Ha. unfold process_candidate. run_monad.
  rewrite (decision_at_lookup _ _ _ _ _ Hd).
  unfold keep_step, buffer_step. rewrite Ha. run_monad. by rewrite Ha.
Qed.

Lemma process_candidate_merge initial i candidate score decision t w :
  all_decisions t !! i = Some decision ->
  action decision = merge ->
  process_candidate initial i candidate score t w = (inr t, w).
Proof.
  intros Hd Ha. unfold process_candidate. run_monad.
  rewrite (decision_at_lookup _ _ _ _ _ Hd).
  unfold keep_step, buffer_step. rewrite Ha. run_monad. by rewrite Ha.
Qed.

(** One turn of the loop, for a [keep] decision. *)
Lemma process_candidate_keep initial i candidate score decision t w :
  all_decisions t !! i = Some decision ->
  action decision = keep ->
  process_candidate initial i candidate score t w
  = match store_memory candidate decision (content candidate) w with
    | (inr _, w1) => (inr (incr_stored t), w1)
    | (inl e, w1) =>
        let t1 := set_decision t i (downgraded decision e) in
        match buffer_memory candidate (reason (downgraded decision e)) score w1 with
        | (inr _, w') => (inr (incr_buffered t1), w')
        | (inl _, w') => (inr (incr_rejected t1), w')
        end
    end.
Proof.
  intros Hd Ha. unfold process_candidate. run_monad.
  rewrite (decision_at_lookup _ _ _ _ _ Hd).
  unfold keep_step. rewrite Ha. run_monad.
  destruct (store_memory candidate decision (content candidate) w) as [[e|mid] w1].
  - fold (downgraded decision e). unfold buffer_step. cbn [action downgraded].
    run_monad.
    by destruct (buffer_memory candidate (reason (downgraded decision e)) score w1)
      as [[?|?] ?].
  - unfold buffer_step. rewrite Ha. reflexivity.
Qed.

(** A turn of the loop never raises; it touches no decision but its own,
    and adds one to the counters unless the decision is a merge. *)
Lemma process_candidate_inv initial i candidate score decision t w :
  all_decisions t !! i = Some decision ->
  exists t' w',
    process_candidate initial i candidate score t w = (inr t', w')
    /\ (all_decisions t' = all_decisions t
        \/ exists e, all_decisions t' = <[i := downgraded decision e]> (all_decisions t))
    /\ stored t' + buffered t' + rejected t'
       = stored t + buffered t + rejected t + counted decision.
Proof.
  intros Hd. unfold counted. destruct (action decision) eqn:Ha.
  - rewrite (process_candidate_keep _ _ _ _ _ _ _ Hd Ha).
    destruct (store_memory candidate decision (content candidate) w) as [[e|mid] w1].
    + cbn zeta.
      destruct (buffer_memory candidate (reason (downgraded decision e)) score w1)
        as [[?|?] w']; eexists _, _; (split; [reflexivity|]);
        (split; [right; by exists e | cbn; lia]).
    + eexists _, _. split; [reflexivity|]. split; [by left | cbn; lia].
  - rewrite (process_candidate_merge _ _ _ _ _ _ _ Hd Ha).
    eexists _, _. split; [reflexivity|]. split; [by left | lia].
  - rewrite (process_candidate_buffer _ _ _ _ _ _ _ Hd Ha).
    destruct (buffer_memory candidate (reason decision) score w) as [[?|?] w'];
      eexists _, _; (split; [reflexivity|]); (split; [by left | cbn; lia]).
  - rewrite (process_candidate_reject _ _ _ _ _ _ _ Hd Ha).
    eexists _, _. split; [reflexivity|]. split; [by left | cbn; lia].
Qed.

(** The loop goes through the whole batch whatever the database answers:
    it ends without an exception, leaves the list of decisions at its
    length, and has counted every decision of its range but the merges. *)
Lemma process_from_total initial scored : forall i t w,
  i + length scored <= length (all_decisions t) ->
  exists t' w',
    process_from initial i scored t w = (inr t', w')
    /\ length (all_decisions t') = length (all_decisions t)
    /\ drop (i + length scored) (all_decisions t')
       = drop (i + length scored) (all_decisions t)
    /\ stored t' + buffered t' + rejected t'
       = stored t + buffered t + rejected t
         + counted_in (take (length scored) (drop i (all_decisions t))).
Proof.
  induction scored as [|[candidate score] rest IH]; intros i t w Hlen.
  - eexists _, _. split; [reflexivity|]. split; [reflexivity|].
    split; [reflexivity|]. unfold counted_in. cbn [length].
    rewrite take_0. cbn. lia.
  - cbn [length] in Hlen. cbn [process_from]. run_monad.
    assert (Hi : i < length (all_decisions t)) by lia.
    destruct (lookup_lt_is_Some_2 (all_decisions t) i Hi) as [decision Hd].
    destruct (process_candidate_inv initial i candidate score decision t w Hd)
      as (t1 & w1 & -> & Hdecisions & Hsum).
    assert (Hlen1 : length (all_decisions t1) = length (all_decisions t)).
    { destruct Hdecisions as [->|[e ->]]; [reflexivity | apply length_insert]. }
    assert (Hdrop : forall k, i < k ->
              drop k (all_decisions t1) = drop k (all_decisions t)).
    { intros k Hk. destruct Hdecisions as [->|[e ->]]; [reflexivity|].
      by apply drop_insert_lt. }
    assert (Hrest : S i + length rest <= length (all_decisions t1)) by lia.
    destruct (IH (S i) t1 w1 Hrest) as (t' & w' & -> & Hlen' & Hdrop' & Hsum').
    eexists _, _. split; [reflexivity|]. split; [congruence|].
    cbn [length]. replace (i + S (length rest)) with (S i + length rest) by lia.
    split; [rewrite Hdrop', Hdrop by lia; reflexivity|].
    rewrite Hsum', Hsum, (Hdrop (S i)) by lia.
    rewrite (drop_S _ _ _ Hd). unfold counted_in, list_sum. cbn. lia.
Qed.



(** The decision the loop executes for the candidate at index [i] is the
    one of the Scorer, whatever the Deduper appended. *)
Lemma executed_decision_is_scorer's initial dedup i decision w :
  initial !! i = Some decision ->
  decision_at initial (fresh_tally (initial ++ dedup)) i w = (inr decision, w).
Proof.
  intros H. apply decision_at_lookup. cbn.
  rewrite lookup_app_l by (by eapply lookup_lt_Some). exact H.
Qed.





End PipelineSpec.

(** * Further properties of the code *)

(** ** Keys and their text *)

Module ObjectIdSpec.

Import MemoryStorage.

Lemma hex_digit_char (d : N) : (d < 16)%N -> hex_digit (hex_char d) = Some d.
Proof.
  intros Hd.
  assert (H : forallb (fun k => match hex_digit (hex_char k) with
                                | Some k' => (k' =? k)%N
                                | None => false
                                end)
                (map N.of_nat (seq 0 16)) = true) by (vm_compute; reflexivity).
  rewrite forallb_forall in H.
  specialize (H d). destruct (hex_digit (hex_char d)) as [k'|].
  - f_equal. apply N.eqb_eq, H.
    apply in_map_iff. exists (N.to_nat d). split; [lia|]. apply in_seq. lia.
  - exfalso. assert (false = true); [|discriminate].
    apply H. apply in_map_iff. exists (N.to_nat d). split; [lia|]. apply in_seq. lia.
Qed.

Lemma length_hex_digits k : forall n acc,
  String.length (hex_digits k n acc) = (k + String.length acc)%nat.
Proof.
  induction k as [|k IH]; intros n acc; cbn [hex_digits]; [reflexivity|].
  rewrite IH. cbn [String.length]. lia.
Qed.

Lemma hex_value_digits k : forall n acc rest,
  (n < 16 ^ N.of_nat k)%N ->
  hex_value acc (hex_digits k n rest)
  = hex_value (acc * 16 ^ N.of_nat k + n)%N rest.
Proof.
  induction k as [|k IH]; intros n acc rest Hn; cbn [hex_digits].
  - change (16 ^ N.of_nat 0)%N with 1%N in *. f_equal. lia.
  - assert (Hpow : (16 ^ N.of_nat (S k) = 16 * 16 ^ N.of_nat k)%N).
    { rewrite Nat2N.inj_succ, N.pow_succ_r'. reflexivity. }
    rewrite Hpow in Hn.
    rewrite IH by (apply N.Div0.div_lt_upper_bound; lia).
    cbn [hex_value]. rewrite hex_digit_char by (apply N.mod_lt; lia).
    f_equal. rewrite Hpow.
    pose proof (N.div_mod n 16 ltac:(lia)). lia.
Qed.

(** The text of a key is 24 characters long and reads back as the key:
    the id returned by [store_memory] or [buffer_memory] is accepted by the
    review operations and names the same document. *)
Theorem object_id_round_trip (oid : N) :
  (oid < 16 ^ 24)%N ->
  String.length (oid_str oid) = 24%nat /\ ObjectId (oid_str oid) = Some oid.
Proof.
  intros Hoid. unfold ObjectId, oid_str.
  rewrite length_hex_digits. cbn [String.length Nat.add Nat.eqb].
  split; [reflexivity|].
  rewrite (hex_value_digits 24 oid 0%N EmptyString) by exact Hoid.
  cbn [hex_value]. f_equal.
Qed.

Lemma object_id_round_trip_witness :
  String.length (oid_str 255) = 24%nat /\ ObjectId (oid_str 255) = Some 255%N.
Proof. apply object_id_round_trip. reflexivity. Defined.

(** A text that is not 24 characters long is no key, and neither is one
    with a character that is no hexadecimal digit. *)
Lemma hex_value_bad_char s : forall i c acc,
  String.get i s = Some c -> hex_digit c = None -> hex_value acc s = None.
Proof.
  induction s as [|c1 s IH]; intros i c acc Hget Hc; [discriminate|].
  cbn [hex_value]. destruct i as [|i]; cbn [String.get] in Hget.
  - injection Hget as ->. by rewrite Hc.
  - destruct (hex_digit c1); [by apply (IH i c) | reflexivity].
Qed.

Theorem object_id_rejects :
  (forall memory_id, String.length memory_id <> 24%nat -> ObjectId memory_id = None)
  /\ (forall memory_id i c,
        String.get i memory_id = Some c -> hex_digit c = None ->
        ObjectId memory_id = None).
Proof.
  split.
  - intros memory_id Hlen. unfold ObjectId.
    by rewrite (proj2 (Nat.eqb_neq _ _) Hlen).
  - intros memory_id i c Hget Hc. unfold ObjectId.
    destruct (_ =? _)%nat; [by apply (hex_value_bad_char _ i c) | reflexivity].
Qed.

Lemma object_id_rejects_witness :
  ObjectId "7" = None /\ ObjectId "00000000000000000000000g" = None.
Proof.
  destruct object_id_rejects as [Hlen Hchar]. split.
  - apply Hlen. cbn. lia.
  - apply (Hchar _ 23%nat "g"%char); reflexivity.
Defined.

End ObjectIdSpec.

(** ** More on the text similarity *)

Module SimilarityBounds.

Import MemoryDeduper.

Lemma true_div_unit (a b : nat) :
  (a <= b)%nat -> (0 < b)%nat -> 0 <= Py.true_div a b /\ Py.true_div a b <= 1.
Proof.
  intros Hab Hb. unfold Py.true_div.
  assert (H : 0 <= (Z.of_nat a # Pos.of_nat b) /\ (Z.of_nat a # Pos.of_nat b) <= 1).
  { unfold Qle. cbn [Qnum Qden]. split; [lia|].
    rewrite <- (positive_nat_Z (Pos.of_nat b)), Nat2Pos.id by lia. lia. }
  rewrite Qred_correct. exact H.
Qed.

Lemma true_div_one (a b : nat) :
  (0 < b)%nat -> Py.true_div a b = 1 -> a = b.
Proof.
  intros Hb H. unfold Py.true_div in H.
  assert (Heq : (Z.of_nat a # Pos.of_nat b) == 1) by (rewrite <- H; symmetry; apply Qred_correct).
  unfold Qeq in Heq. cbn [Qnum Qden] in Heq.
  rewrite <- (positive_nat_Z (Pos.of_nat b)), Nat2Pos.id in Heq by lia. lia.
Qed.

(** The similarity of two texts is a number from 0 to 1. *)
Theorem similarity_unit_interval (text1 text2 : string) :
  0 <= _calculate_text_similarity text1 text2
  /\ _calculate_text_similarity text1 text2 <= 1.
Proof.
  unfold _calculate_text_similarity.
  destruct (bool_decide (words text1 = ∅) || bool_decide (words text2 = ∅));
    [split; [apply Qle_refl | discriminate]|].
  destruct (0 <? size (words text1 ∪ words text2))%nat eqn:Hpos;
    [|split; [apply Qle_refl | discriminate]].
  apply Nat.ltb_lt in Hpos. apply true_div_unit; [|exact Hpos].
  apply subseteq_size. set_solver.
Qed.

(** Two texts are at similarity 1 exactly when they have the same words,
    and at least one: the order of the words, their repetitions, the case
    of the letters and the spacing do not count. *)
Theorem similarity_one_iff_same_words (text1 text2 : string) :
  _calculate_text_similarity text1 text2 = 1
  <-> words text1 = words text2 /\ words text1 ≠ ∅.
Proof.
  split.
  - unfold _calculate_text_similarity.
    destruct (bool_decide (words text1 = ∅)) eqn:H1; [discriminate|].
    destruct (bool_decide (words text2 = ∅)) eqn:H2; [discriminate|].
    cbn [orb]. apply bool_decide_eq_false in H1.
    destruct (0 <? size (words text1 ∪ words text2))%nat eqn:Hpos; [|discriminate].
    apply Nat.ltb_lt in Hpos. intros Hone.
    apply true_div_one in Hone; [|exact Hpos].
    split; [|exact H1].
    assert (Hsub : words text1 ∩ words text2 ⊆ words text1 ∪ words text2) by set_solver.
    assert (Heq : words text1 ∩ words text2 ≡ words text1 ∪ words text2).
    { apply set_subseteq_size_equiv; [exact Hsub | lia]. }
    apply leibniz_equiv. set_solver.
  - intros [Heq Hne]. unfold _calculate_text_similarity. rewrite <- Heq.
    exact (SimilaritySpec.similarity_self text1 Hne).
Qed.

Lemma lower_ascii_idemp (c : ascii) :
  Py.lower_ascii (Py.lower_ascii c) = Py.lower_ascii c.
Proof. destruct c as [[] [] [] [] [] [] [] []]; reflexivity. Qed.

Lemma lower_idemp (s : string) : Py.lower (Py.lower s) = Py.lower s.
Proof.
  induction s as [|c s IH]; [reflexivity|].
  cbn [Py.lower]. by rewrite lower_ascii_idemp, IH.
Qed.

(** The similarity does not see the case of the letters. *)
Lemma similarity_ignores_case (text1 text2 : string) :
  _calculate_text_similarity (Py.lower text1) text2
  = _calculate_text_similarity text1 text2
  /\ _calculate_text_similarity text1 (Py.lower text2)
     = _calculate_text_similarity text1 text2.
Proof.
  unfold _calculate_text_similarity, words. by rewrite !lower_idemp.
Qed.

End SimilarityBounds.

(** ** More on the Scorer *)

Module ScorerMore.

Import MemoryScorer Terms ScorerStatistics.

(** On a tie the rounding takes the even neighbour, whatever fraction
    denotes the number. *)
Lemma round_half_even_tie (x : Q) (k : Z) :
  x == inject_Z k + (1 # 2) ->
  Py.round_half_even x = if Z.even k then k else (k + 1)%Z.
Proof.
  destruct x as [num den]. unfold Qeq, Qplus, inject_Z. cbn [Qnum Qden].
  intros Heq. unfold Py.round_half_even. cbn [Qnum Qden].
  pose proof (Z.div_mod num (Zpos den) ltac:(lia)) as Hdm.
  pose proof (Z.mod_pos_bound num (Zpos den) ltac:(lia)) as Hb.
  set (q := (num / Zpos den)%Z) in *. set (r := (num mod Zpos den)%Z) in *.
  assert (Hq : q = k) by nia. subst k.
  assert (Hr : (2 * r = Zpos den)%Z) by nia.
  rewrite (proj2 (Z.ltb_ge _ _)) by lia.
  rewrite (proj2 (Z.ltb_ge _ _)) by lia. reflexivity.
Qed.

Lemma round_half_even_mono (x y : Q) :
  x <= y -> (Py.round_half_even x <= Py.round_half_even y)%Z.
Proof.
  intros Hxy.
  destruct (round_half_even_near x) as [Hx1 Hx2].
  destruct (round_half_even_near y) as [Hy1 Hy2].
  destruct (Z_le_gt_dec (Py.round_half_even x) (Py.round_half_even y))
    as [Hle|Hgt]; [exact Hle|exfalso].
  set (rx := Py.round_half_even x) in *. set (ry := Py.round_half_even y) in *.
  assert (Hz : inject_Z rx <= inject_Z ry + 1) by lra.
  assert (Hrx : rx = (ry + 1)%Z).
  { unfold Qle, Qplus, inject_Z in Hz. cbn [Qnum Qden] in Hz. lia. }
  assert (Hinj : inject_Z rx == inject_Z ry + 1).
  { rewrite Hrx. unfold Qeq, Qplus, inject_Z. cbn [Qnum Qden]. lia. }
  assert (Hx : x == inject_Z ry + (1 # 2)) by lra.
  assert (Hy : y == inject_Z ry + (1 # 2)) by lra.
  pose proof (round_half_even_tie x ry Hx) as Ex.
  pose proof (round_half_even_tie y ry Hy) as Ey.
  fold rx in Ex. fold ry in Ey. destruct (Z.even ry); lia.
Qed.

Lemma round3_mono (x y : Q) : x <= y -> Py.round3 x <= Py.round3 y.
Proof.
  intros Hxy. rewrite !round3_thousandths.
  assert (H : (Py.round_half_even (x * 1000) <= Py.round_half_even (y * 1000))%Z)
    by (apply round_half_even_mono; lra).
  unfold Qle. cbn [Qnum Qden]. lia.
Qed.

(** With weights that are not negative, raising a feature of a candidate
    never lowers its salience score. *)
Theorem salience_score_monotone (cfg : Config.t) (c1 c2 : CandidateMemory) :
  0 <= Config.w_relevance (Config.SCORING_WEIGHTS cfg) ->
  0 <= Config.w_specificity (Config.SCORING_WEIGHTS cfg) ->
  0 <= Config.w_confidence (Config.SCORING_WEIGHTS cfg) ->
  relevance c1 <= relevance c2 ->
  specificity c1 <= specificity c2 ->
  confidence c1 <= confidence c2 ->
  _calculate_salience_score cfg c1 <= _calculate_salience_score cfg c2.
Proof.
  intros Hwr Hws Hwc Hr Hs Hc. unfold _calculate_salience_score, weights.
  apply round3_mono.
  set (wr := Config.w_relevance _) in *. set (ws := Config.w_specificity _) in *.
  set (wc := Config.w_confidence _) in *.
  assert (wr * relevance c1 <= wr * relevance c2) by nra.
  assert (ws * specificity c1 <= ws * specificity c2) by nra.
  assert (wc * confidence c1 <= wc * confidence c2) by nra.
  lra.
Qed.

Lemma salience_score_monotone_witness :
  _calculate_salience_score Config.default Samples.hiking_like
  <= _calculate_salience_score Config.default Samples.hiking_love.
Proof.
  apply salience_score_monotone; vm_compute; discriminate.
Defined.

Lemma insert_desc_perm x l : insert_desc x l ≡ₚ x :: l.
Proof.
  induction l as [|y l IH]; cbn [insert_desc]; [reflexivity|].
  destruct (Py.gt y.2 x.2); [|reflexivity].
  rewrite IH. apply Permutation_swap.
Qed.

Lemma sort_desc_perm l : sort_desc l ≡ₚ l.
Proof.
  induction l as [|x l IH]; cbn [sort_desc]; [reflexivity|].
  by rewrite insert_desc_perm, IH.
Qed.

(** [score_memories] returns every candidate of the batch once, with its
    score written into it and beside it, by decreasing score. *)
Theorem score_memories_sorted_permutation (cfg : Config.t)
    (candidates : list CandidateMemory) :
  score_memories cfg candidates
  ≡ₚ map (fun c => (set_salience_score c (_calculate_salience_score cfg c),
                    _calculate_salience_score cfg c)) candidates
  /\ StronglySorted (fun a b => b.2 <= a.2) (score_memories cfg candidates)
  /\ length (score_memories cfg candidates) = length candidates.
Proof.
  split; [apply sort_desc_perm|].
  split; [apply ScorerSpec.sort_desc_sorted | apply ScorerSpec.length_score_memories].
Qed.

(** What a decision of the Scorer tells about the score: a kept candidate
    reached the threshold of its type, a buffered one reached the buffer
    threshold and not the threshold of its type, a rejected one reached
    neither; the Scorer never decides a merge and names no other memory. *)
Theorem decision_tells_score (cfg : Config.t) (candidate : CandidateMemory)
    (score : Q) :
  let decision := _evaluate_candidate cfg candidate score in
  (action decision = keep <-> T_type cfg candidate <= score)
  /\ (action decision = buffer
      <-> score < T_type cfg candidate /\ Config.BUFFER_THRESHOLD cfg <= score)
  /\ (action decision = reject
      <-> score < T_type cfg candidate /\ score < Config.BUFFER_THRESHOLD cfg)
  /\ action decision <> merge
  /\ merged_with decision = None.
Proof.
  cbn zeta. unfold _evaluate_candidate, T_type, buffer_threshold.
  set (T := threshold_of cfg (value (memory_type candidate))).
  set (B := Config.BUFFER_THRESHOLD cfg).
  destruct (Py.ge score T) eqn:HT.
  - apply ge_spec in HT. cbn.
    repeat split; try discriminate; try (intros; assumption).
    + intros [Hlt _]. exfalso. apply (Qlt_not_le _ _ Hlt HT).
    + intros [Hlt _]. exfalso. apply (Qlt_not_le _ _ Hlt HT).
  - apply ge_false in HT. destruct (Py.ge score B) eqn:HB.
    + apply ge_spec in HB. cbn.
      repeat split; try discriminate; try (intros; assumption).
      * intros Hle. exfalso. apply (Qlt_not_le _ _ HT Hle).
      * intros [_ Hlt]. exfalso. apply (Qlt_not_le _ _ Hlt HB).
    + apply ge_false in HB. cbn.
      repeat split; try discriminate; try (intros; assumption).
      * intros Hle. exfalso. apply (Qlt_not_le _ _ HT Hle).
      * intros [_ Hle]. exfalso. apply (Qlt_not_le _ _ HB Hle).
Qed.

Lemma evaluate_never_merges cfg candidate score :
  action (_evaluate_candidate cfg candidate score) <> merge.
Proof.
  unfold _evaluate_candidate.
  destruct (Py.ge score _); [discriminate|].
  destruct (Py.ge score _); discriminate.
Qed.

Lemma count_actions (decisions : list MemoryDecision) :
  length decisions
  = (length (filter (fun d => is_action keep d = true) decisions)
     + length (filter (fun d => is_action buffer d = true) decisions)
     + length (filter (fun d => is_action reject d = true) decisions)
     + length (filter (fun d => is_action merge d = true) decisions))%nat.
Proof.
  induction decisions as [|d l IH]; [reflexivity|].
  destruct (action d) eqn:Ha;
    repeat first
      [ rewrite filter_cons_True by (unfold is_action; rewrite Ha; done)
      | rewrite filter_cons_False by (unfold is_action; rewrite Ha; done) ];
    cbn [length]; lia.
Qed.

(** The statistics of the Scorer's own decisions: one decision a scored
    candidate, no merge among them, and the kept, buffered and rejected
    counts add up to the total. *)
Theorem statistics_add_up (cfg : Config.t)
    (scored : list (CandidateMemory * Q)) :
  let stats := get_statistics (make_decisions cfg scored) in
  total stats = length scored
  /\ merged stats = 0%nat
  /\ total stats = (kept stats + buffered stats + rejected stats)%nat.
Proof.
  cbn zeta.
  assert (Hmerged : merged (get_statistics (make_decisions cfg scored)) = 0%nat).
  { cbn [get_statistics merged].
    induction scored as [|[c s] l IH]; [reflexivity|].
    cbn [make_decisions map]. rewrite filter_cons.
    case_decide as Hm; [|exact IH].
    exfalso. unfold is_action in Hm.
    pose proof (evaluate_never_merges cfg c s) as Hne.
    destruct (action (_evaluate_candidate cfg c s));
      try discriminate. by apply Hne. }
  split; [cbn [get_statistics total]; unfold make_decisions; apply length_map|].
  split; [exact Hmerged|].
  pose proof (count_actions (make_decisions cfg scored)) as Hsum.
  cbn [get_statistics merged total kept buffered rejected] in *. lia.
Qed.

End ScorerMore.

(** ** More on the Deduper *)

Module DeduperMore.

Import MemoryDeduper Terms MoreTerms Samples MoreSamples.

Section AgainstStored.
Variable cfg : Config.t.

Lemma best_so_far_fold candidate (l : list StoredMemory) :
  forall seen best,
    best_so_far candidate seen best ->
    best_so_far candidate (seen ++ l)
      (fold_left
         (fun '(best_match, best_similarity) stored =>
            match embedding stored with
            | None => (best_match, best_similarity)
            | Some _ =>
                let similarity :=
                  _calculate_text_similarity (content candidate) (final_content stored) in
                if Py.gt similarity best_similarity then (Some stored, similarity)
                else (best_match, best_similarity)
            end) l best).
Proof.
  induction l as [|x l IH]; intros seen [m s] Hinv; cbn [fold_left].
  - by rewrite app_nil_r.
  - replace (seen ++ x :: l) with ((seen ++ [x]) ++ l)
      by (by rewrite <- app_assoc).
    apply IH. destruct Hinv as [Hmax Hbest]. cbn [fst snd] in *.
    destruct (embedding x) as [emb|] eqn:Hemb.
    + set (sim := _calculate_text_similarity (content candidate) (final_content x)).
      destruct (Py.gt sim s) eqn:Hgt; unfold Py.gt in Hgt.
      * apply negb_true_iff in Hgt.
        assert (Hlt : s < sim).
        { apply Qnot_le_lt. intros Hle. apply Qle_bool_iff in Hle. congruence. }
        split; cbn [fst snd].
        -- intros y Hy Hey. apply elem_of_app in Hy as [Hy|Hy].
           ++ apply Qle_trans with (y := s); [by apply Hmax | by apply Qlt_le_weak].
           ++ apply list_elem_of_singleton in Hy as ->. apply Qle_refl.
        -- split; [apply elem_of_app; right; by apply list_elem_of_singleton|].
           split; [congruence|]. split; [|reflexivity].
           apply Qle_lt_trans with (y := s); [|exact Hlt].
           destruct m as [x0|]; [destruct Hbest as (_ & _ & H0 & _); by apply Qlt_le_weak|].
           rewrite Hbest. apply Qle_refl.
      * apply negb_false_iff, Qle_bool_iff in Hgt.
        split; cbn [fst snd].
        -- intros y Hy Hey. apply elem_of_app in Hy as [Hy|Hy]; [by apply Hmax|].
           by apply list_elem_of_singleton in Hy as ->.
        -- destruct m as [x0|]; [|exact Hbest].
           destruct Hbest as (Hin & ?). split; [|assumption].
           apply elem_of_app. by left.
    + split; cbn [fst snd].
      * intros y Hy Hey. apply elem_of_app in Hy as [Hy|Hy]; [by apply Hmax|].
        apply list_elem_of_singleton in Hy as ->. congruence.
      * destruct m as [x0|]; [|exact Hbest].
        destruct Hbest as (Hin & ?). split; [|assumption].
        apply elem_of_app. by left.
Qed.

(** The search of the first pass ends on a stored memory with an
    embedding that is as similar to the candidate as any, or on none when
    no such memory has a similarity above 0. *)
Lemma best_stored_match_spec candidate stored_memories :
  best_so_far candidate stored_memories
    (best_stored_match candidate stored_memories).
Proof.
  unfold best_stored_match.
  apply (best_so_far_fold candidate stored_memories [] (None, 0)).
  split; [|reflexivity]. intros x Hx. by apply elem_of_nil in Hx.
Qed.

(** With a threshold above 0 the first pass does not raise and accounts
    for every candidate, merged or left; a candidate is left only if no
    stored memory with an embedding reaches the threshold, and every
    decision is a merge into a stored memory of the window that reaches
    it. *)
Theorem against_stored_accounts_for_all (candidates : list CandidateMemory)
    (stored_memories : list StoredMemory) :
  0 < Config.SIMILARITY_THRESHOLD cfg ->
  exists decisions remaining,
    _deduplicate_against_stored cfg candidates stored_memories
    = inr (decisions, remaining)
    /\ (length decisions + length remaining = length candidates)%nat
    /\ (forall c, c ∈ remaining ->
          c ∈ candidates
          /\ forall x, x ∈ stored_memories -> embedding x <> None ->
               _calculate_text_similarity (content c) (final_content x)
               < Config.SIMILARITY_THRESHOLD cfg)
    /\ (forall d, d ∈ decisions ->
          action d = merge
          /\ exists x, x ∈ stored_memories /\ embedding x <> None
               /\ merged_with d = sm_id x).
Proof.
  intros Hthr. induction candidates as [|c rest IH].
  - exists [], []. split; [reflexivity|]. split; [reflexivity|].
    split; intros x Hx; by apply elem_of_nil in Hx.
  - destruct IH as (ds & rem & Hrun & Hlen & Hrem & Hds).
    cbn [_deduplicate_against_stored]. rewrite Hrun.
    pose proof (best_stored_match_spec c stored_memories) as [Hmax Hbest].
    destruct (best_stored_match c stored_memories) as [m s]. cbn [fst snd] in *.
    unfold similarity_threshold.
    destruct (Py.ge s (Config.SIMILARITY_THRESHOLD cfg)) eqn:Hge.
    + apply ge_spec in Hge. destruct m as [x|].
      * destruct Hbest as (Hin & Hemb & _ & _).
        eexists _, rem. split; [reflexivity|]. split; [cbn [length]; lia|].
        split.
        -- intros c' Hc'. destruct (Hrem c' Hc') as [? ?]. split; [by right | assumption].
        -- intros d Hd. apply elem_of_cons in Hd as [->|Hd]; [|by apply Hds].
           split; [reflexivity|]. by exists x.
      * exfalso. rewrite Hbest in Hge. apply (Qlt_not_le _ _ Hthr Hge).
    + apply ge_false in Hge.
      exists ds, (c :: rem). split; [reflexivity|]. split; [cbn [length]; lia|].
      split; [|exact Hds].
      intros c' Hc'. apply elem_of_cons in Hc' as [->|Hc'].
      * split; [by left|]. intros x Hx Hemb.
        apply Qle_lt_trans with (y := s); [by apply Hmax | exact Hge].
      * destruct (Hrem c' Hc') as [? ?]. split; [by right | assumption].
Qed.

Lemma first_pass_reads_none (c : CandidateMemory)
    (rest : list CandidateMemory) (stored_memories : list StoredMemory) :
  Config.SIMILARITY_THRESHOLD cfg <= 0 ->
  (forall x, x ∈ stored_memories -> embedding x <> None ->
     _calculate_text_similarity (content c) (final_content x) <= 0) ->
  _deduplicate_against_stored cfg (c :: rest) stored_memories
  = inl "'NoneType' object has no attribute 'final_content'".
Proof.
  intros Hthr Hnone. cbn [_deduplicate_against_stored].
  pose proof (best_stored_match_spec c stored_memories) as [Hmax Hbest].
  destruct (best_stored_match c stored_memories) as [m s]. cbn [fst snd] in *.
  destruct m as [x|].
  - destruct Hbest as (Hin & Hemb & Hpos & ->). exfalso.
    apply (Qlt_not_le _ _ Hpos). by apply Hnone.
  - rewrite Hbest. unfold similarity_threshold.
    by rewrite (proj2 (ge_spec _ _) Hthr).
Qed.

(** With a threshold of 0 or less, a candidate that no stored memory with
    an embedding resembles at all makes the first pass raise: the best
    match it reads the content of is [None]. *)
Theorem against_stored_raises_without_match (c : CandidateMemory)
    (rest : list CandidateMemory) (stored_memories : list StoredMemory) :
  Config.SIMILARITY_THRESHOLD cfg <= 0 ->
  (forall x, x ∈ stored_memories -> embedding x <> None ->
     _calculate_text_similarity (content c) (final_content x) <= 0) ->
  _deduplicate_against_stored cfg (c :: rest) stored_memories
  = inl "'NoneType' object has no attribute 'final_content'"
  /\ deduplicate_memories cfg (c :: rest) stored_memories
     = inl "'NoneType' object has no attribute 'final_content'".
Proof.
  intros Hthr Hnone.
  pose proof (first_pass_reads_none c rest stored_memories Hthr Hnone) as H.
  split; [exact H|]. unfold deduplicate_memories. by rewrite H.
Qed.

End AgainstStored.

Lemma against_stored_accounts_for_all_witness :
  exists decisions remaining,
    _deduplicate_against_stored Config.default [hiking_love; hiking_enjoy]
      [stored_hiking] = inr (decisions, remaining)
    /\ (length decisions + length remaining = 2)%nat.
Proof.
  destruct (against_stored_accounts_for_all Config.default
              [hiking_love; hiking_enjoy] [stored_hiking])
    as (ds & rem & Hrun & Hlen & _); [reflexivity|].
  exists ds, rem. split; [exact Hrun | exact Hlen].
Defined.

Lemma against_stored_raises_without_match_witness :
  deduplicate_memories zero_threshold [hiking_love] []
  = inl "'NoneType' object has no attribute 'final_content'".
Proof.
  apply (against_stored_raises_without_match zero_threshold hiking_love [] []).
  - vm_compute. discriminate.
  - intros x Hx. by apply elem_of_nil in Hx.
Defined.

(** [merge_events_pairs] and [within_batch_in_pipeline] at work. *)
Lemma merge_events_pairs_witness :
  forall e, e ∈ merge_events Config.default [hiking_like; hiking_love; hiking_enjoy] ->
    merge_of_pair Config.default [hiking_like; hiking_love; hiking_enjoy] e.
Proof. intros e He. by apply DeduperSpec.merge_events_pairs. Defined.

Lemma within_batch_in_pipeline_witness :
  NoDup (merge_idx <$> merge_events Config.default
           (map fst (MemoryScorer.score_memories Config.default
                       [hiking_like; hiking_love; hiking_enjoy]))).
Proof.
  destruct (DeduperSpec.within_batch_in_pipeline Config.default
              [hiking_like; hiking_love; hiking_enjoy] [] []
              (map fst (MemoryScorer.score_memories Config.default
                          [hiking_like; hiking_love; hiking_enjoy])))
    as (_ & Hnd & _); [vm_compute; reflexivity | exact Hnd].
Defined.

End DeduperMore.

(** ** More on the storage *)

Module StorageMore.

Import MemoryStorage Terms MoreTerms Samples MoreSamples StorageSpec.





(** What [get_stored_memories] does with the page of documents it asked
    for. *)
Lemma get_stored_memories_cases limit offset w :
  exists memories w',
    get_stored_memories limit offset w = (inr memories, w')
    /\ same_data w w'
    /\ (memories = [] \/ mapM load_stored (page limit offset w) = Some memories)
    /\ (quiet w ->
        quiet w'
        /\ memories = default [] (mapM load_stored (page limit offset w))).
Proof.
  unfold get_stored_memories, find_stored, page. run_monad.
  destruct (db_call w) as [[e|[]] w1] eqn:Hcall;
    apply db_call_inv in Hcall as [Hsame Hq].
  - exists [], w1. split; [reflexivity|]. split; [exact Hsame|]. split; [by left|].
    intros Hw. by destruct (Hq Hw).
  - destruct Hsame as (Hs & Hb & Ha & Hn & Hj). rewrite Hs.
    destruct (mapM load_stored (take limit (drop offset (stored_memories w))))
      as [ms|] eqn:Hm.
    + exists ms, w1. split; [reflexivity|]. split; [by repeat split|].
      split; [by right|]. intros Hw. by destruct (Hq Hw).
    + exists [], w1. split; [reflexivity|]. split; [by repeat split|].
      split; [by left|]. intros Hw. by destruct (Hq Hw).
Qed.








(** A rejection never raises and never touches the stored memories; the
    buffered collection stays as it was or loses the record, and after the
    answer [True] the record is gone and its deletion is the last write. *)
Theorem reject_never_stores (memory_id : string) (admin_notes : option string)
    (w w' : World) (r : string + bool) :
  reject_buffered_memory memory_id admin_notes w = (r, w') ->
  (exists answer, r = inr answer)
  /\ stored_memories w' = stored_memories w
  /\ (forall k doc, buffered_memories w' !! k = Some doc ->
        buffered_memories w !! k = Some doc)
  /\ (r = inr true ->
      exists object_id before,
        ObjectId memory_id = Some object_id
        /\ buffered_memories w' = delete object_id (buffered_memories w)
        /\ journal w' = journal w ++ before ++ [DeleteBuffered object_id]).
Proof.
  intros H.
  apply reject_inv in H
    as [[-> (Hs & Hb & _)]
       |(oid & doc & logged & Hoid & Hdoc & _ & Hs & _ & Hcases)].
  - split; [by eexists|]. split; [exact Hs|].
    split; [intros k d; by rewrite Hb | discriminate].
  - destruct Hcases as [(-> & Hb & _)|(-> & Hb & Hw)].
    + split; [by eexists|]. split; [exact Hs|].
      split; [intros k d; by rewrite Hb | discriminate].
    + split; [by eexists|]. split; [exact Hs|]. split.
      * intros k d. rewrite Hb. intros Hk.
        by apply lookup_delete_Some in Hk as [_ ?].
      * intros _. exists oid, logged. by repeat split.
Qed.

Lemma reject_never_stores_witness :
  exists w', reject_buffered_memory review_id None (review_world []) = (inr true, w')
             /\ stored_memories w' = [].
Proof.
  destruct (reject_buffered_memory review_id None (review_world [])) as [r w'] eqn:H.
  assert (Hr : r = inr true)
    by (change r with (r, w').1; rewrite <- H; vm_compute; reflexivity).
  destruct (reject_never_stores _ _ _ _ _ H) as (_ & Hs & _).
  exists w'. by rewrite Hr.
Defined.



End StorageMore.

(** ** Health and the endpoints *)

Module EndpointSpec.

Import MemoryStorage Terms MoreTerms Samples MoreSamples StorageSpec.

Lemma call_then_read {A} (read : World -> A) (w : World) :
  exists w', same_data w w' /\ (quiet w -> quiet w')
    /\ ((db_call ;; ((fun w0 => (inr (read w0), w0)) : M A)) w = (inr (read w'), w')
        \/ exists e, (db_call ;; ((fun w0 => (inr (read w0), w0)) : M A)) w = (inl e, w')
                     /\ ~ quiet w).
Proof.
  run_monad. destruct (db_call w) as [[e|[]] w1] eqn:Hcall;
    apply db_call_inv in Hcall as [Hsame Hq]; exists w1;
    (split; [exact Hsame|]); (split; [intros Hw; by destruct (Hq Hw)|]).
  - right. exists e. split; [reflexivity|]. intros Hw. by destruct (Hq Hw).
  - by left.
Qed.

(** The health check of the storage never raises and never writes: it
    reports the three collection sizes, or the error of the first call
    that failed and no sizes. *)
Lemma storage_health_check_cases (w : World) :
  exists health w',
    Health.storage_health_check w = (inr health, w')
    /\ same_data w w'
    /\ (Health.db_status health = "healthy"
        /\ Health.db_database health = "connected"
        /\ Health.db_collections health
           = <["stored_memories" := length (stored_memories w)]>
             (<["buffered_memories" := size (buffered_memories w)]>
             (<["audit_logs" := length (audit_logs w)]> ∅))
        \/ ~ quiet w
           /\ Health.db_status health = "unhealthy"
           /\ (exists e, Health.db_database health = ("error: " ++ e)%string)
           /\ Health.db_collections health = ∅).
Proof.
  unfold Health.storage_health_check, Health.ping, Health.count_stored,
    Health.count_buffered, Health.count_audit.
  unfold try_except at 1. unfold mbind at 1, M_bind at 1, bind at 1.
  destruct (db_call w) as [[e|[]] w1] eqn:Hcall;
    apply db_call_inv in Hcall as [Hsame1 Hq1].
  { eexists _, w1. split; [reflexivity|]. split; [exact Hsame1|]. right.
    split; [intros Hw; by destruct (Hq1 Hw)|]. cbn. by eauto. }
  unfold mbind at 1, M_bind at 1, bind at 1.
  destruct (call_then_read (fun w0 => length (stored_memories w0)) w1)
    as (w2 & Hsame2 & Hq2 & [->|(e & -> & Hn)]).
  2:{ eexists _, w2. split; [reflexivity|].
      split; [by apply (same_data_trans w w1 w2)|]. right.
      split; [intros Hw; apply Hn; by destruct (Hq1 Hw)|]. cbn. by eauto. }
  unfold mbind at 1, M_bind at 1, bind at 1.
  destruct (call_then_read (fun w0 => size (buffered_memories w0)) w2)
    as (w3 & Hsame3 & Hq3 & [->|(e & -> & Hn)]).
  2:{ eexists _, w3. split; [reflexivity|].
      split; [apply (same_data_trans w w2 w3);
              [by apply (same_data_trans w w1 w2) | exact Hsame3]|]. right.
      split; [intros Hw; apply Hn, Hq2; by destruct (Hq1 Hw)|]. cbn. by eauto. }
  unfold mbind at 1, M_bind at 1, bind at 1.
  destruct (call_then_read (fun w0 => length (audit_logs w0)) w3)
    as (w4 & Hsame4 & Hq4 & [->|(e & -> & Hn)]).
  2:{ eexists _, w4. split; [reflexivity|].
      split; [apply (same_data_trans w w3 w4);
              [apply (same_data_trans w w2 w3);
               [by apply (same_data_trans w w1 w2) | exact Hsame3] | exact Hsame4]|].
      right. split; [intros Hw; apply Hn, Hq3, Hq2; by destruct (Hq1 Hw)|].
      cbn. by eauto. }
  assert (H2 : same_data w w2) by (by apply (same_data_trans w w1 w2)).
  assert (H3 : same_data w w3) by (by apply (same_data_trans w w2 w3)).
  assert (H4 : same_data w w4) by (by apply (same_data_trans w w3 w4)).
  eexists _, w4. split; [reflexivity|]. split; [exact H4|]. left. cbn.
  split; [reflexivity|]. split; [reflexivity|].
  destruct H2 as (-> & _). destruct H3 as (_ & -> & _).
  destruct H4 as (_ & _ & -> & _). reflexivity.
Qed.

(** The endpoint [/health/db] answers with the status "healthy" whatever
    the database does, and never writes.  The state of the database is in
    the field [database]: "connected" with the sizes of the three
    collections, or the error of the call that failed with no sizes; with
    a database that answers, it is "connected". *)
Theorem health_check_is_always_healthy (w : World) :
  exists response w',
    Health.health_check w = (response, w')
    /\ Health.status response = "healthy"
    /\ same_data w w'
    /\ (Health.database response = "connected"
        /\ Health.collections response
           = <["stored_memories" := length (stored_memories w)]>
             (<["buffered_memories" := size (buffered_memories w)]>
             (<["audit_logs" := length (audit_logs w)]> ∅))
        \/ ~ quiet w
           /\ (exists e, Health.database response = ("error: " ++ e)%string)
           /\ Health.collections response = ∅).
Proof.
  destruct (storage_health_check_cases w) as (health & w' & Hrun & Hsame & Hcases).
  unfold Health.health_check, Health.service_health_check. run_monad.
  rewrite Hrun. eexists _, w'. split; [reflexivity|]. cbn.
  split; [reflexivity|]. split; [exact Hsame|].
  destruct Hcases as [(_ & Hd & Hc)|(Hn & _ & Hd & Hc)]; [left|right]; auto.
Qed.

(** The review endpoints answer 200 with the id when the storage
    answered [True], and 500 in every other case: the 404 they raise for
    [False] is caught by their own handler.  The answer does not depend on
    the request's [modified_content], [action] or [memory_id] fields. *)
Theorem review_endpoints_answer (memory_id : string)
    (request : AdminReviewRequest) (w : World) :
  (exists answer w',
     MemoryStorage.approve_buffered_memory memory_id (notes request) w
     = (inr answer, w')
     /\ Main.approve_buffered_memory memory_id request w
        = (if answer then Main.Ok200 "Memory approved successfully" memory_id
           else Main.HttpError 500, w'))
  /\ (exists answer w',
        MemoryStorage.reject_buffered_memory memory_id (notes request) w
        = (inr answer, w')
        /\ Main.reject_buffered_memory memory_id request w
           = (if answer then Main.Ok200 "Memory rejected successfully" memory_id
              else Main.HttpError 500, w')).
Proof.
  split.
  - destruct (MemoryStorage.approve_buffered_memory memory_id (notes request) w)
      as [r w'] eqn:H.
    pose proof (resolve_inv Approve memory_id (notes request) w r w' H) as Hr.
    destruct Hr as [->|[-> _]]; eexists _, w'; (split; [reflexivity|]);
      unfold Main.approve_buffered_memory, DeciderService.approve_buffered_memory;
      run_monad; rewrite H; reflexivity.
  - destruct (MemoryStorage.reject_buffered_memory memory_id (notes request) w)
      as [r w'] eqn:H.
    pose proof (resolve_inv Reject memory_id (notes request) w r w' H) as Hr.
    destruct Hr as [->|[-> _]]; eexists _, w'; (split; [reflexivity|]);
      unfold Main.reject_buffered_memory, DeciderService.reject_buffered_memory;
      run_monad; rewrite H; reflexivity.
Qed.

End EndpointSpec.

(** ** More on the batch *)

Module PipelineMore.

Import MemoryStorage DeciderService Terms MoreTerms Samples MoreSamples
  StorageSpec PipelineSpec.

Local Open Scope nat_scope.

(** What one turn of the loop does to the database: it stores the
    candidate and counts it stored, or buffers it under a free key and
    counts it buffered, or writes in neither collection and leaves both
    counters. *)
Lemma process_candidate_world initial i candidate score decision t w t' w' :
  all_decisions t !! i = Some decision ->
  process_candidate initial i candidate score t w = (inr t', w') ->
  (stored t' = S (stored t) /\ buffered t' = buffered t
   /\ (exists k d, stored_memories w'
         = (k, stored_doc candidate d (content candidate)) :: stored_memories w)
   /\ buffered_memories w' = buffered_memories w)
  \/ (stored t' = stored t /\ buffered t' = S (buffered t)
      /\ stored_memories w' = stored_memories w
      /\ exists k why,
           buffered_memories w !! k = None
           /\ buffered_memories w'
              = <[k := buffered_doc candidate why score]> (buffered_memories w))
  \/ (stored t' = stored t /\ buffered t' = buffered t
      /\ stored_memories w' = stored_memories w
      /\ buffered_memories w' = buffered_memories w).
Proof.
  intros Hd.
  assert (Hbuffer : forall (t0 : Tally) why w0 t1 w1,
    match buffer_memory candidate why score w0 with
    | (inr _, w2) => (inr (incr_buffered t0) : string + Tally, w2)
    | (inl _, w2) => (inr (incr_rejected t0), w2)
    end = (inr t1, w1) ->
    (stored t1 = stored t0 /\ buffered t1 = S (buffered t0)
     /\ stored_memories w1 = stored_memories w0
     /\ exists k why,
          buffered_memories w0 !! k = None
          /\ buffered_memories w1
             = <[k := buffered_doc candidate why score]> (buffered_memories w0))
    \/ (stored t1 = stored t0 /\ buffered t1 = buffered t0
        /\ stored_memories w1 = stored_memories w0
        /\ buffered_memories w1 = buffered_memories w0)).
  { intros t0 why w0 t1 w1.
    destruct (buffer_memory candidate why score w0) as [rb wb] eqn:Hb.
    apply buffer_memory_inv in Hb as [[[[e ->] Hsame]|(-> & Hfree & Hbm & Hsm & _)] _];
      intros H; injection H as <- <-.
    - right. destruct Hsame as (? & ? & _). by repeat split.
    - left. split; [reflexivity|]. split; [reflexivity|]. split; [exact Hsm|].
      by exists (next_oid w0), why. }
  destruct (action decision) eqn:Ha.
  - rewrite (process_candidate_keep _ _ _ _ _ _ _ Hd Ha).
    destruct (store_memory candidate decision (content candidate) w) as [rs w1] eqn:Hs.
    apply store_memory_inv in Hs as [[[[e ->] Hsame]|(-> & Hsm & Hbm & _)] _].
    + cbn zeta. intros H. destruct Hsame as (Hs1 & Hb1 & _).
      apply Hbuffer in H. cbn [set_decision incr_buffered stored buffered] in H.
      rewrite Hs1, Hb1 in H. destruct H as [H|H]; [right; left | right; right]; exact H.
    + intros H. injection H as <- <-. left. cbn.
      split; [reflexivity|]. split; [reflexivity|]. split; [by eexists _, _ | exact Hbm].
  - rewrite (process_candidate_merge _ _ _ _ _ _ _ Hd Ha).
    intros H. injection H as <- <-. right. right. by repeat split.
  - rewrite (process_candidate_buffer _ _ _ _ _ _ _ Hd Ha).
    intros H. apply Hbuffer in H. destruct H as [H|H]; [right; left | right; right]; exact H.
  - rewrite (process_candidate_reject _ _ _ _ _ _ _ Hd Ha).
    intros H. injection H as <- <-. right. right. by repeat split.
Qed.

Lemma process_from_world initial scored : forall i t w t' w',
  i + length scored <= length (all_decisions t) ->
  process_from initial i scored t w = (inr t', w') ->
  (stored t' + length (stored_memories w)
   = stored t + length (stored_memories w'))
  /\ (buffered t' + size (buffered_memories w)
      = buffered t + size (buffered_memories w'))
  /\ ((forall x, In x scored -> validate x.1 = true) ->
      valid_world w -> valid_world w').
Proof.
  induction scored as [|[candidate score] rest IH]; intros i t w t' w' Hlen Hrun.
  - cbn [process_from] in Hrun. run_monad. injection Hrun as <- <-.
    split; [reflexivity|]. split; [reflexivity|]. by intros _ Hv.
  - cbn [length] in Hlen. cbn [process_from] in Hrun. run_monad.
    assert (Hi : i < length (all_decisions t)) by lia.
    destruct (lookup_lt_is_Some_2 (all_decisions t) i Hi) as [decision Hd].
    destruct (process_candidate_inv initial i candidate score decision t w Hd)
      as (t1 & w1 & Hstep & Hdecisions & _).
    rewrite Hstep in Hrun.
    assert (Hlen1 : length (all_decisions t1) = length (all_decisions t)).
    { destruct Hdecisions as [->|[e ->]]; [reflexivity | apply length_insert]. }
    assert (Hrest : S i + length rest <= length (all_decisions t1)) by lia.
    destruct (IH (S i) t1 w1 t' w' Hrest Hrun) as (Hs & Hb & Hv).
    pose proof (process_candidate_world _ _ _ _ _ _ _ _ _ Hd Hstep) as Hw.
    split; [|split].
    + destruct Hw as [(Hs1 & _ & (k & d & Hsm) & _)|[(Hs1 & _ & Hsm & _)|(Hs1 & _ & Hsm & _)]];
        rewrite Hsm in Hs; cbn [length] in Hs; lia.
    + destruct Hw as [(_ & Hb1 & _ & Hbm)|[(_ & Hb1 & _ & k & why & Hfree & Hbm)|(_ & Hb1 & _ & Hbm)]];
        rewrite Hbm in Hb; try lia.
      rewrite map_size_insert_None in Hb by exact Hfree. lia.
    + intros Hvalid [Hvs Hvb]. apply Hv; [intros x Hx; apply Hvalid; by right|].
      assert (Hc : validate candidate = true)
        by (apply (Hvalid (candidate, score)); by left).
      destruct Hw as [(_ & _ & (k & d & Hsm) & Hbm)|[(_ & _ & Hsm & k & why & _ & Hbm)|(_ & _ & Hsm & Hbm)]];
        split; rewrite ?Hsm, ?Hbm; auto.
      * intros doc Hdoc. apply elem_of_cons in Hdoc as [->|Hdoc]; [exact Hc | by apply Hvs].
      * intros k' doc. rewrite lookup_insert. case_decide as Hk.
        -- intros H. injection H as <-. exact Hc.
        -- apply Hvb.
Qed.

Lemma get_stored_memories_same limit offset w :
  exists window w', get_stored_memories limit offset w = (inr window, w')
                    /\ same_data w w'
                    /\ (stored_memories w = [] -> window = []).
Proof.
  destruct (StorageMore.get_stored_memories_cases limit offset w)
    as (ms & w' & Hrun & Hsame & Hms & _).
  exists ms, w'. split; [exact Hrun|]. split; [exact Hsame|].
  intros Hempty. destruct Hms as [->|Hm]; [reflexivity|].
  unfold page in Hm. rewrite Hempty, drop_nil, take_nil in Hm.
  by injection Hm as <-.
Qed.

(** The counts of the response are the writes: after a batch the stored
    collection holds [stored_count] more documents and the buffered
    collection [buffered_count] more records than before. *)
Theorem response_counts_are_the_writes (cfg : Config.t)
    (extracted : list CandidateMemory) (w w' : World)
    (response : ExtractionResponse) :
  extract_and_store cfg extracted w = (inr response, w') ->
  length (stored_memories w') = length (stored_memories w) + stored_count response
  /\ size (buffered_memories w')
     = size (buffered_memories w) + buffered_count response.
Proof.
  unfold extract_and_store.
  destruct extracted as [|c0 cs] eqn:Hex.
  { run_monad. intros H. injection H as <- <-. cbn. lia. }
  rewrite <- Hex. clear Hex c0 cs.
  set (scored := MemoryScorer.score_memories cfg extracted).
  set (initial := MemoryScorer.make_decisions cfg scored).
  assert (Hinitial : length initial = length scored)
    by (unfold initial, MemoryScorer.make_decisions; apply length_map).
  run_monad.
  destruct (get_stored_memories_same 1000 0 w) as (window & w1 & -> & Hsame & _).
  destruct (MemoryDeduper.deduplicate_memories cfg (map fst scored) window)
    as [e|[dedup remaining]]; [discriminate|].
  match goal with
  | |- context [process_from initial 0 scored ?t0 w1] =>
      destruct (process_from initial 0 scored t0 w1) as [[e|t'] w2] eqn:Hrun;
      [discriminate|];
      apply (process_from_world initial scored 0 t0 w1 t' w2) in Hrun
        as (Hs & Hb & _); [|cbn; rewrite length_app; lia]
  end.
  intros H. injection H as <- <-. cbn in *.
  destruct Hsame as (Hs1 & Hb1 & _). rewrite Hs1 in Hs. rewrite Hb1 in Hb. lia.
Qed.

Lemma response_counts_are_the_writes_witness :
  exists response w',
    extract_and_store Config.default [hiking_love; hiking_enjoy]
      (failing_world [None; Some "connection refused"]) = (inr response, w')
    /\ length (stored_memories w') = stored_count response
    /\ size (buffered_memories w') = buffered_count response.
Proof.
  destruct (extract_and_store Config.default [hiking_love; hiking_enjoy]
              (failing_world [None; Some "connection refused"]))
    as [r w'] eqn:H.
  assert (Hr : exists response, r = inr response).
  { change r with (r, w').1. rewrite <- H. vm_compute. by eexists. }
  destruct Hr as [response ->].
  destruct (response_counts_are_the_writes _ _ _ _ _ H) as [Hs Hb].
  exists response, w'. split; [reflexivity|]. split; [exact Hs|].
  rewrite Hb. change (size (buffered_memories _)) with 0. reflexivity.
Defined.

Lemma in_unit_spec (x : Q) : unit_interval x -> in_unit x = true.
Proof.
  intros [H0 H1]. unfold in_unit.
  by rewrite (proj2 (ge_spec _ _) H0), (proj2 (ge_spec _ _) H1).
Qed.

(** Under weights that are not negative and add up to 1, what the Scorer
    returns for candidates with features in [0,1] passes the field
    validation. *)
Lemma scored_candidates_valid cfg extracted :
  convex_weights cfg ->
  (forall c, In c extracted -> unit_features c) ->
  forall x, In x (MemoryScorer.score_memories cfg extracted) -> validate x.1 = true.
Proof.
  intros (Hwr & Hws & Hwc & Hsum) Hfeat [scored score] Hin.
  apply ScorerSpec.In_score_memories in Hin as (c & Hc & -> & ->).
  destruct (Hfeat c Hc) as (Hr & Hs & Hf).
  pose proof (ScorerSpec.weighted_sum_unit cfg c Hr Hs Hf Hwr Hws Hwc Hsum) as [H0 H1].
  unfold validate. cbn.
  rewrite (in_unit_spec _ Hf), (in_unit_spec _ Hr), (in_unit_spec _ Hs).
  cbn [andb]. apply in_unit_spec. by apply round3_unit.
Qed.

Lemma valid_world_same_data w w' : same_data w w' -> valid_world w -> valid_world w'.
Proof. intros (Hs & Hb & _) [Hvs Hvb]. split; by rewrite ?Hs, ?Hb. Qed.

Lemma batch_valid_world (cfg : Config.t)
    (extracted : list CandidateMemory) (w w' : World)
    (r : string + ExtractionResponse) :
  convex_weights cfg ->
  (forall c, In c extracted -> unit_features c) ->
  valid_world w ->
  extract_and_store cfg extracted w = (r, w') ->
  valid_world w'.
Proof.
  intros Hcfg Hfeat Hvalid. unfold extract_and_store.
  destruct extracted as [|c0 cs] eqn:Hex.
  { run_monad. intros H. by injection H as <- <-. }
  rewrite <- Hex in *. clear Hex c0 cs.
  pose proof (scored_candidates_valid cfg extracted Hcfg Hfeat) as Hscored.
  set (scored := MemoryScorer.score_memories cfg extracted) in *.
  set (initial := MemoryScorer.make_decisions cfg scored).
  assert (Hinitial : length initial = length scored)
    by (unfold initial, MemoryScorer.make_decisions; apply length_map).
  run_monad.
  destruct (get_stored_memories_same 1000 0 w) as (window & w1 & -> & Hsame & _).
  pose proof (valid_world_same_data w w1 Hsame Hvalid) as Hvalid1.
  destruct (MemoryDeduper.deduplicate_memories cfg (map fst scored) window)
    as [e|[dedup remaining]]; [intros H; by injection H as <- <-|].
  match goal with
  | |- context [process_from initial 0 scored ?t0 w1] =>
      destruct (process_from initial 0 scored t0 w1) as [rt w2] eqn:Hrun;
      destruct (process_from_total initial scored 0 t0 w1) as (t' & w2' & Hrun' & _);
      [cbn; rewrite length_app; lia|];
      rewrite Hrun in Hrun'; injection Hrun' as -> <-;
      apply (process_from_world initial scored 0 t0 w1 t' w2) in Hrun
        as (_ & _ & Hv); [|cbn; rewrite length_app; lia]
  end.
  intros H. injection H as <- <-. by apply Hv.
Qed.

(** A batch keeps the collections readable: with weights that are not
    negative and add up to 1 and candidates whose features are in [0,1],
    if every stored and buffered document passed the field validation
    before the batch, every one does after it, whatever the database
    answered and whether the batch ended or raised. *)
Theorem batch_keeps_documents_valid (cfg : Config.t)
    (extracted : list CandidateMemory) (w w' : World)
    (r : string + ExtractionResponse) :
  convex_weights cfg ->
  (forall c, In c extracted -> unit_features c) ->
  valid_world w ->
  extract_and_store cfg extracted w = (r, w') ->
  valid_world w'.
Proof. apply batch_valid_world. Qed.

Lemma batch_keeps_documents_valid_witness :
  valid_world
    (extract_and_store Config.default [hiking_love; hiking_enjoy]
       (failing_world [None; Some "connection refused"])).2.
Proof.
  apply (batch_keeps_documents_valid Config.default [hiking_love; hiking_enjoy]
           (failing_world [None; Some "connection refused"]) _
           (extract_and_store Config.default [hiking_love; hiking_enjoy]
              (failing_world [None; Some "connection refused"])).1).
  - repeat split; vm_compute; discriminate || reflexivity.
  - intros c [<-|[<-|[]]]; repeat split; vm_compute; discriminate.
  - split; [intros doc Hd; by apply elem_of_nil in Hd|].
    intros k doc Hk. cbn in Hk. by rewrite lookup_empty in Hk.
  - by destruct (extract_and_store _ _ _).
Defined.

(** With a similarity threshold of 0 or less and no stored memory, every
    batch with a candidate raises in the Deduper, before anything is
    written. *)
Theorem batch_fails_with_threshold_zero (cfg : Config.t)
    (c : CandidateMemory) (rest : list CandidateMemory) (w : World) :
  (Config.SIMILARITY_THRESHOLD cfg <= 0)%Q ->
  stored_memories w = [] ->
  exists w',
    extract_and_store cfg (c :: rest) w
    = (inl "'NoneType' object has no attribute 'final_content'", w')
    /\ same_data w w'.
Proof.
  intros Hthr Hempty. unfold extract_and_store. run_monad.
  destruct (get_stored_memories_same 1000 0 w) as (window & w1 & -> & Hsame & Hwin).
  rewrite (Hwin Hempty).
  pose proof (ScorerSpec.length_score_memories cfg (c :: rest)) as Hlen.
  destruct (MemoryScorer.score_memories cfg (c :: rest)) as [|[c1 s1] scored];
    [discriminate|].
  cbn [map fst].
  unfold MemoryDeduper.deduplicate_memories.
  rewrite (DeduperMore.first_pass_reads_none cfg c1 (map fst scored) [] Hthr).
  - by exists w1.
  - intros x Hx. by apply elem_of_nil in Hx.
Qed.

Lemma batch_fails_with_threshold_zero_witness :
  exists w',
    extract_and_store zero_threshold [hiking_love] empty_world
    = (inl "'NoneType' object has no attribute 'final_content'", w').
Proof.
  destruct (batch_fails_with_threshold_zero zero_threshold hiking_love [] empty_world)
    as (w' & H & _); [vm_compute; discriminate | reflexivity |].
  by exists w'.
Defined.


End PipelineMore.

(** ** The extractor *)

Module ExtractorSpec.

Import MemoryExtractor Terms MoreTerms Samples MoreSamples.

Section WithRegex.
Variable finditer : string -> string -> list string.

Lemma confidence_range text content memory_type pattern :
  0 <= _calculate_confidence finditer text content memory_type pattern
  /\ _calculate_confidence finditer text content memory_type pattern <= 1
  /\ (search finditer pattern text = true ->
      0.6 <= _calculate_confidence finditer text content memory_type pattern).
Proof.
  unfold _calculate_confidence.
  destruct (search finditer pattern text);
    destruct (endswith text "." || endswith text "!" || endswith text "?");
    destruct ((10 <? String.length content)%nat && _);
    vm_compute; repeat split; intros; discriminate.
Qed.

Lemma relevance_range content memory_type :
  0.5 <= _calculate_relevance content memory_type
  /\ _calculate_relevance content memory_type <= 1.
Proof.
  unfold _calculate_relevance.
  destruct (existsb _ ["learn"; "study"; "work"; "practice"; "improve"; "develop"]);
    destruct (existsb _ ["i "; "my "; "me "]);
    vm_compute; split; discriminate.
Qed.

Lemma specificity_range content :
  0.5 <= _calculate_specificity content /\ _calculate_specificity content <= 1.
Proof.
  unfold _calculate_specificity.
  destruct (existsb _ _); destruct (has_digit content);
    vm_compute; split; discriminate.
Qed.

(** A match whose content is kept gives a candidate that the constructor
    accepts. *)
Lemma candidate_of_match_accepted turn text memory_type pattern group1 result :
  search finditer pattern text = true ->
  candidate_of_match finditer turn text memory_type pattern group1 = Some result ->
  exists c, result = inr c /\ well_extracted turn c
            /\ Models.memory_type c = memory_type.
Proof.
  intros Hsearch. unfold candidate_of_match.
  destruct ((String.length (strip group1) <? 5)%nat) eqn:Hlen; [discriminate|].
  cbn [orb]. destruct (existsb _ _); [discriminate|].
  apply Nat.ltb_ge in Hlen.
  destruct (confidence_range text (strip group1) memory_type pattern)
    as (Hc0 & Hc1 & Hc6).
  specialize (Hc6 Hsearch).
  destruct (relevance_range (strip group1) memory_type) as (Hr5 & Hr1).
  destruct (specificity_range (strip group1)) as (Hs5 & Hs1).
  set (conf := _calculate_confidence finditer text (strip group1) memory_type pattern) in *.
  set (rel := _calculate_relevance (strip group1) memory_type) in *.
  set (spec := _calculate_specificity (strip group1)) in *.
  assert (Hsal : Qred (conf * 0.4 + rel * 0.4 + spec * 0.2)
                 == conf * 0.4 + rel * 0.4 + spec * 0.2) by apply Qred_correct.
  assert (Hvalid : validate
            {| id := None; memory_type := memory_type; content := strip group1;
               confidence := conf; relevance := rel; specificity := spec;
               salience_score := Qred (conf * 0.4 + rel * 0.4 + spec * 0.2);
               source_turn := turn;
               extraction_evidence := "Pattern match: " ++ pattern |} = true).
  { unfold validate. cbn.
    rewrite !PipelineMore.in_unit_spec; [reflexivity| | | |];
      unfold unit_interval; split; lra. }
  rewrite Hvalid. intros H. injection H as <-. eexists. split; [reflexivity|].
  split; [|reflexivity]. unfold well_extracted. cbn.
  split; [reflexivity|]. split; [reflexivity|]. split; [exact Hvalid|].
  repeat split; try assumption.
Qed.

Lemma matches_of_search text memory_type pattern group1 :
  In (memory_type, pattern, group1) (matches_of finditer text) ->
  search finditer pattern text = true.
Proof.
  unfold matches_of. rewrite in_flat_map. intros ([mt ps] & _ & H).
  apply in_flat_map in H as (p & _ & H).
  apply in_map_iff in H as (g & Heq & Hg). injection Heq as -> -> ->.
  unfold search. destruct (finditer pattern text); [destruct Hg | reflexivity].
Qed.

Lemma candidates_of_matches_accepted turn text l :
  (forall mt p g, In (mt, p, g) l -> search finditer p text = true) ->
  exists candidates,
    candidates_of_matches finditer turn text l = inr candidates
    /\ (length candidates <= length l)%nat
    /\ forall c, In c candidates -> well_extracted turn c.
Proof.
  induction l as [|[[mt p] g] l IH]; intros Hl.
  - exists []. split; [reflexivity|]. split; [reflexivity|]. intros c [].
  - destruct IH as (cs & Hrun & Hlen & Hcs);
      [intros mt' p' g' H; apply (Hl mt' p' g'); by right|].
    cbn [candidates_of_matches]. rewrite Hrun.
    destruct (candidate_of_match finditer turn text mt p g) as [result|] eqn:Hc.
    + apply candidate_of_match_accepted in Hc as (c & -> & Hwell & _);
        [|apply (Hl mt p g); by left].
      exists (c :: cs). split; [reflexivity|]. split; [cbn [length]; lia|].
      intros c' [<-|Hin]; [exact Hwell | by apply Hcs].
    + exists cs. split; [reflexivity|]. split; [cbn [length]; lia|]. exact Hcs.
Qed.

Lemma extract_from_turn_cases (turn : ConversationTurn) :
  exists candidates,
    _extract_from_turn finditer turn = inr candidates
    /\ (length candidates <= length (matches_of finditer (strip (text turn))))%nat
    /\ forall c, In c candidates -> well_extracted turn c.
Proof.
  unfold _extract_from_turn.
  destruct ((String.length (strip (text turn)) <? 10)%nat || _).
  - exists []. split; [reflexivity|]. split; [cbn; lia|]. intros c [].
  - apply candidates_of_matches_accepted.
    intros mt p g. apply matches_of_search.
Qed.


Lemma extract_memories_cases (turns : list ConversationTurn) :
  exists candidates,
    extract_memories finditer turns = inr candidates
    /\ forall c, In c candidates ->
         In (source_turn c) turns
         /\ Py.lower (speaker (source_turn c)) = "user"
         /\ well_extracted (source_turn c) c.
Proof.
  induction turns as [|turn turns (cs & Hrun & Hcs)].
  - exists []. split; [reflexivity|]. intros c [].
  - cbn [extract_memories]. rewrite Hrun.
    destruct (String.eqb (Py.lower (speaker turn)) "user") eqn:Huser.
    + apply String.eqb_eq in Huser.
      destruct (extract_from_turn_cases turn) as (tcs & -> & _ & Htcs).
      exists (tcs ++ cs). split; [reflexivity|]. intros c Hin.
      apply in_app_or in Hin as [Hin|Hin].
      * pose proof (Htcs c Hin) as Hwell.
        assert (Hturn : source_turn c = turn) by apply Hwell.
        rewrite Hturn. split; [by left|]. by split.
      * destruct (Hcs c Hin) as (? & ? & ?). split; [by right|]. by split.
    + exists cs. split; [reflexivity|]. intros c Hin.
      destruct (Hcs c Hin) as (? & ? & ?). split; [by right|]. by split.
Qed.

(** [extract_memories] never raises, and every candidate it returns was
    built from a turn of the conversation whose speaker is the user in
    some casing; the turns of other speakers give nothing. *)
Theorem extract_memories_reads_user_turns (turns : list ConversationTurn) :
  exists candidates,
    extract_memories finditer turns = inr candidates
    /\ forall c, In c candidates ->
         In (source_turn c) turns
         /\ Py.lower (speaker (source_turn c)) = "user"
         /\ well_extracted (source_turn c) c.
Proof. exact (extract_memories_cases turns). Qed.

(** From the turns of a request to the database: with weights that are
    not negative and add up to 1, whatever the regular expressions find,
    a request leaves every stored and buffered document passing the field
    validation if every one did before. *)
Theorem request_keeps_documents_valid (cfg : Config.t)
    (turns : list ConversationTurn) (w w' : MemoryStorage.World)
    (r : string + ExtractionResponse) :
  convex_weights cfg ->
  valid_world w ->
  extract_and_store_turns finditer cfg turns w = (r, w') ->
  valid_world w'.
Proof.
  intros Hcfg Hvalid. unfold extract_and_store_turns.
  destruct (extract_memories_cases turns) as (candidates & -> & Hcs).
  apply (PipelineMore.batch_valid_world cfg candidates w w' r Hcfg); [|exact Hvalid].
  intros c Hc. destruct (Hcs c Hc) as (_ & _ & Hwell).
  destruct Hwell as (_ & _ & _ & Hc6 & Hc1 & Hr5 & Hr1 & Hs5 & Hs1 & _).
  unfold unit_features, unit_interval. repeat split; lra.
Qed.

End WithRegex.

(** The user's turn gives one candidate, the assistant's none. *)
Example extract_memories_hiking :
  exists c,
    extract_memories finds_hiking [assistant_turn; user_turn] = inr [c]
    /\ content c = "hiking on weekends"
    /\ Models.memory_type c = PREFERENCE
    /\ source_turn c = user_turn
    /\ confidence c = 1 /\ relevance c = 1 # 2 /\ specificity c = 1 # 2
    /\ salience_score c = 7 # 10.
Proof. eexists. vm_compute. repeat split. Qed.

Lemma request_keeps_documents_valid_witness :
  valid_world
    (extract_and_store_turns finds_hiking Config.default
       [assistant_turn; user_turn] Samples.empty_world).2.
Proof.
  apply (request_keeps_documents_valid finds_hiking Config.default
           [assistant_turn; user_turn] Samples.empty_world _
           (extract_and_store_turns finds_hiking Config.default
              [assistant_turn; user_turn] Samples.empty_world).1).
  - repeat split; vm_compute; discriminate || reflexivity.
  - split; [intros doc Hd; by apply elem_of_nil in Hd|].
    intros k doc Hk. cbn in Hk. by rewrite lookup_empty in Hk.
  - by destruct (extract_and_store_turns _ _ _ _).
Defined.

End ExtractorSpec.

(** ** The audit log *)

Module AuditSpec.

Import MemoryStorage Terms Samples StorageSpec.

(** [_log_audit] never raises, whatever the database answers, and it
    touches neither the stored nor the buffered collection: the audit
    collection stays as it was, or gains one entry with the action, the id
    and the candidate's content, type and score. *)
Theorem log_audit_never_raises (action memory_id : string)
    (decision : option MemoryDecision) (candidate : CandidateMemory) (w : World) :
  let w' := (_log_audit action memory_id decision candidate w).2 in
  (_log_audit action memory_id decision candidate w).1 = inr tt
  /\ stored_memories w' = stored_memories w
  /\ buffered_memories w' = buffered_memories w
  /\ (audit_logs w' = audit_logs w /\ ~ quiet w
      \/ exists entry,
           audit_logs w' = entry :: audit_logs w
           /\ al_action entry = action
           /\ al_memory_id entry = memory_id
           /\ al_content entry = content candidate
           /\ al_memory_type entry = value (memory_type candidate)
           /\ al_salience_score entry = salience_score candidate
           /\ al_decision entry = decision).
Proof.
  cbn zeta. unfold _log_audit, insert_audit, db_call, quiet. run_monad.
  destruct (faults w) as [|[e|] rest] eqn:Hf; cbn.
  - repeat split. right. eexists. by repeat split.
  - repeat split. left. split; [reflexivity | discriminate].
  - repeat split. right. eexists. by repeat split.
Qed.



End AuditSpec.
